(** * Adafactor (gpt_2_simple/src/adafactor.py): a shallow embedding

    The optimizer is a numeric kernel over float32 tensors, driven by Python
    code that computes with Python floats (binary64) and Python integers.
    The embedding is written once, over an abstract arithmetic
    ([Float], [Libm], [Numerics] below), and is then read in two ways:

    - [R_Numerics]: exact real arithmetic, in which the algebraic laws of
      the update rule (schedules, clipping, noise) are proved for every
      input;
    - [F32_Numerics]: IEEE-754 binary64 for the Python side, binary32 for
      tensors and bfloat16 for encoded parameters, built on the standard
      library's [SpecFloat]; every definition computes there, so the code
      can be run bit for bit on concrete inputs.

    Integers (global step, int32 tensors, shapes, bit widths) are [Z] and
    [nat] with their wrap-around written out; the slot dictionary is a
    [gmap]. *)

From Stdlib Require Import ZArith QArith Qpower Reals Lra Lia.
From Stdlib Require Import Floats.SpecFloat.
From stdpp Require Import base option list gmap strings.

(** ** The arithmetic interface *)

(** What the source asks of a floating-point format: the arithmetic of
    Python floats and of [tf] kernels alike. [of_Q] reads a literal or an
    integer into the format. *)
Class Float (A : Type) := {
  of_Q : Q -> A;
  fadd : A -> A -> A;
  fsub : A -> A -> A;
  fmul : A -> A -> A;
  fdiv : A -> A -> A;
  fopp : A -> A;
  fsqrt : A -> A;
  fabs : A -> A;
  fsign : A -> A;
  ffloor : A -> A;
  fmax : A -> A -> A;
  fmin : A -> A -> A;
  fgt : A -> A -> bool;
  ftruth : A -> bool
}.

(** The two library functions whose float results are platform-defined:
    [pow] ([tf.pow], Python's [**]) and the floored modulus ([tf.mod],
    Python's [%]). *)
Class Libm (A : Type) := {
  fpow : A -> A -> A;
  fmod : A -> A -> A
}.

(** [P] is the format of Python floats, [A] that of float32 tensors.
    [to_float] is the conversion a Python number undergoes when it meets a
    tensor; [to_bfloat16] rounds a float32 to the bfloat16 grid (bfloat16
    values are kept in [A], so that [tf.to_float] of a bfloat16 is the
    identity). *)
Class Numerics (P A : Type) := {
  py_float :: Float P;
  tf_float :: Float A;
  to_float : P -> A;
  to_bfloat16 : A -> A
}.

(** ** Tensors *)

(** A tensor is its static shape and its elements in row-major order. *)
Record tensor (A : Type) := Tensor {
  tshape : list nat;
  tdata : list A
}.
Arguments Tensor {A} _ _.
Arguments tshape {A} _.
Arguments tdata {A} _.

(** Python slicing of a list: [l[:k]] and [l[k:]], negative [k] counting
    from the end, out-of-range bounds clamped. *)
Definition py_bound (len : nat) (k : Z) : nat :=
  if (k <? 0)%Z then Z.to_nat (Z.max 0 (Z.of_nat len + k))
  else Z.to_nat (Z.min k (Z.of_nat len)).

Definition slice_to {X} (l : list X) (k : Z) : list X :=
  take (py_bound (length l) k) l.

Definition slice_from {X} (l : list X) (k : Z) : list X :=
  drop (py_bound (length l) k) l.

(** [shape[-1]] and [shape[-2]] (only used under a rank guard). *)
Definition dim_last (shape : list nat) : nat :=
  nth (length shape - 1) shape 0.

Definition dim_second_last (shape : list nat) : nat :=
  nth (length shape - 2) shape 0.

Definition num_elements (shape : list nat) : nat :=
  foldr Nat.mul 1 shape.

(** Consecutive runs of [n] elements: the rows of a row-major tensor whose
    last dimension is [n]. *)
Fixpoint chunks_aux {X} (fuel n : nat) (l : list X) : list (list X) :=
  match fuel with
  | O => []
  | S fuel' =>
      match l with
      | [] => []
      | _ :: _ => take n l :: chunks_aux fuel' n (drop n l)
      end
  end.

Definition chunks {X} (n : nat) (l : list X) : list (list X) :=
  chunks_aux (length l) n l.

Section Tensors.
Context {A : Type} `{Float A}.

Definition tmap (f : A -> A) (t : tensor A) : tensor A :=
  Tensor (tshape t) (map f (tdata t)).

Definition tzip (f : A -> A -> A) (t u : tensor A) : tensor A :=
  Tensor (tshape t) (zip_with f (tdata t) (tdata u)).

(** [tf.zeros(shape)]. *)
Definition zeros (shape : list nat) : tensor A :=
  Tensor shape (replicate (num_elements shape) (of_Q 0)).

Definition square (x : A) : A := fmul x x.

(** [tf.rsqrt]: the reciprocal of the square root. *)
Definition rsqrt (x : A) : A := fdiv (of_Q 1) (fsqrt x).

(** The sum of [tf.reduce_sum] and [tf.reduce_mean], accumulated from the
    left; TensorFlow's kernels may add in another order, which in float32
    can change the last bit of a sum of many elements. *)
Definition reduce_sum_list (l : list A) : A :=
  fold_left fadd l (of_Q 0).

Definition reduce_mean_list (l : list A) : A :=
  fdiv (reduce_sum_list l) (of_Q (inject_Z (Z.of_nat (length l)))).

Definition reduce_max_list (l : list A) : A :=
  match l with
  | [] => of_Q 0
  | x :: l' => fold_left fmax l' x
  end.

(** [tf.reduce_mean(x)]: over all elements, a scalar. *)
Definition reduce_mean (t : tensor A) : A :=
  reduce_mean_list (tdata t).

(** [tf.reduce_mean(x, -1)]. *)
Definition reduce_mean_last (t : tensor A) : tensor A :=
  Tensor (slice_to (tshape t) (-1))
         (map reduce_mean_list (chunks (dim_last (tshape t)) (tdata t))).

(** [tf.reduce_mean(x, -2)]: within every trailing matrix, the mean of
    each column. *)
Definition reduce_mean_second_last (t : tensor A) : tensor A :=
  let n := dim_last (tshape t) in
  let m := dim_second_last (tshape t) in
  Tensor (slice_to (tshape t) (-2) ++ slice_from (tshape t) (-1))
         (concat (map (fun block =>
                         map (fun j => reduce_mean_list
                                         (map (fun row => nth j row (of_Q 0))
                                              (chunks n block)))
                             (seq 0 n))
                      (chunks (m * n) (tdata t)))).

(** [x / tf.reduce_mean(x, -1, keepdims=True)]: every element divided by
    the mean of its row. *)
Definition div_by_row_mean (t : tensor A) : tensor A :=
  Tensor (tshape t)
         (concat (map (fun row => map (fun v => fdiv v (reduce_mean_list row)) row)
                      (chunks (dim_last (tshape t)) (tdata t)))).

(** [g * tf.expand_dims(r, -1) * tf.expand_dims(c, -2)] for [g] of shape
    [b ++ [m; n]], [r] of shape [b ++ [m]] and [c] of shape [b ++ [n]]:
    element [(k, i, j)] is [(g[k,i,j] * r[k,i]) * c[k,j]]. *)
Definition scale_rows_cols (g r c : tensor A) : tensor A :=
  let n := dim_last (tshape g) in
  let m := dim_second_last (tshape g) in
  Tensor (tshape g)
         (imap (fun idx v =>
                  fmul (fmul v (nth (idx / n) (tdata r) (of_Q 0)))
                       (nth (idx / (m * n) * n + idx mod n) (tdata c) (of_Q 0)))
               (tdata g)).

(** [reduce_rms], source lines 357-358. *)
Definition reduce_rms (x : tensor A) : A :=
  fsqrt (reduce_mean (tmap square x)).

End Tensors.

(** ** Integer tensors *)

(** [tf.to_int32] of the int64 global step, and int32 addition: two's
    complement wrap-around. *)
Definition wrap32 (z : Z) : Z :=
  ((z + 2 ^ 31) mod 2 ^ 32 - 2 ^ 31)%Z.

Definition to_int32 (z : Z) : Z := wrap32 z.

Definition int32_add (x y : Z) : Z := wrap32 (x + y).

(** ** Numeric utilities, quantization and the parameter encoding *)

Section Utilities.
Context {P A : Type} `{Numerics P A} `{Libm P} `{Libm A}.

(** A Python float literal meeting a tensor. *)
Definition lit (q : Q) : A := to_float (of_Q q).

(** A Python or tensor integer converted to float32. *)
Definition of_int (z : Z) : A := of_Q (inject_Z z).

(** [step_num], lines 315-316, at global step [global_step]. *)
Definition step_num (global_step : Z) : A := of_int global_step.

(** [adafactor_decay_rate_adam], lines 290-301. *)
Definition adafactor_decay_rate_adam (beta2 : P) (global_step : Z) : A :=
  let t := fadd (of_int global_step) (lit 1) in
  let decay :=
    fdiv (fmul (to_float beta2)
               (fsub (lit 1) (fpow (to_float beta2) (fsub t (lit 1)))))
         (fsub (lit 1) (fpow (to_float beta2) t)) in
  decay.

(** [adafactor_decay_rate_pow], lines 304-312. *)
Definition adafactor_decay_rate_pow (exponent : P) (global_step : Z) : A :=
  fsub (lit 1)
       (fpow (fadd (step_num global_step) (lit 1)) (to_float (fopp exponent))).

(** [noise_from_step_num], lines 383-401. [phi] and the thirty
    coefficients [(phi * 2**i) % 1.0] are Python floats; the accumulation
    and the final [tf.mod] are float32. *)
Definition noise_from_step_num (global_step : Z) : A :=
  let step := int32_add (to_int32 global_step) 1 in
  let phi : P := fdiv (fsub (fpow (of_Q 5) (of_Q (1 # 2))) (of_Q 1)) (of_Q 2) in
  let ret :=
    fold_left
      (fun ret i =>
         fadd ret
              (fmul (to_float (fmod (fmul phi (of_Q (inject_Z (2 ^ Z.of_nat i))))
                                    (of_Q 1)))
                    (of_int ((step / 2 ^ Z.of_nat i) mod 2)%Z)))
      (seq 0 30) (lit 0) in
  fmod ret (lit 1).

(** [simulated_quantize], lines 405-441. [2 ** (num_bits - 1) - 1] is a
    Python integer for [num_bits >= 1] and a Python float below. The
    divisions are those of the source; TensorFlow's graph optimizer may
    run the division by the constant [max_int] as a multiplication by its
    reciprocal, which in float32 can change the last bit. *)
Definition simulated_quantize (x : tensor A) (num_bits : Z) (noise : A) : tensor A :=
  let shape := tshape x in
  if negb ((2 <=? length shape)%nat && (1 <? dim_last shape)%nat) then x
  else
    let max_int : A :=
      if (1 <=? num_bits)%Z then of_int (2 ^ (num_bits - 1) - 1)
      else to_float (fsub (of_Q (Qpower 2 (num_bits - 1))) (of_Q 1)) in
    Tensor shape
      (concat
         (map (fun row =>
                 let max_abs :=
                   fadd (reduce_max_list (map fabs row))
                        (lit (1 # 1000000000)) in
                 let scale := fdiv max_abs max_int in
                 map (fun v => fmul (ffloor (fadd (fdiv v scale) noise)) scale) row)
              (chunks (dim_last shape) (tdata x)))).

(** [_randomized_roundoff_to_bfloat16], lines 524-544, on one element. *)
Definition _randomized_roundoff_to_bfloat16 (x noise cand1 cand2 : A) : A :=
  let cand1_f := cand1 in
  let cand2_f := cand2 in
  let step_size := fsub cand2_f cand1_f in
  let fpart := fdiv (fsub x cand1_f) step_size in
  if fgt fpart noise then cand2 else cand1.

(** [_to_bfloat16_unbiased], lines 548-567, on one element. The final
    product is a bfloat16 multiplication. *)
Definition _to_bfloat16_unbiased (x noise : A) : A :=
  let x_sign := fsign x in
  let x := fadd (fmul x x_sign) (lit (1 # 1000000000000000000000000000000)) in
  let cand1 := to_bfloat16 x in
  let cand1_f := cand1 in
  let cand2 :=
    to_bfloat16 (if fgt x cand1_f then fmul cand1_f (lit (1005 # 1000))
                 else fmul cand1_f (lit (995 # 1000))) in
  let ret := _randomized_roundoff_to_bfloat16 x noise cand1 cand2 in
  to_bfloat16 (fmul ret (to_bfloat16 x_sign)).

(** [ParameterEncoding], lines 468-490: the interface of an encoding. *)
Record ParameterEncoding := {
  encode : tensor A -> A -> tensor A;
  decode : tensor A -> tensor A
}.

(** [EighthPowerEncoding.encode], lines 578-584, on one element. *)
Definition encode_elem (noise x : A) : A :=
  let x := fmul (fsign x) (square (square (square (fmul (fabs x) (lit 128))))) in
  _to_bfloat16_unbiased x noise.

(** [EighthPowerEncoding.decode], lines 586-590, on one element. *)
Definition decode_elem (x : A) : A :=
  fmul (fsign x) (fdiv (fsqrt (fsqrt (fsqrt (fabs x)))) (lit 128)).

Definition EighthPowerEncoding : ParameterEncoding := {|
  encode := fun x noise => tmap (encode_elem noise) x;
  decode := fun x => tmap decode_elem x
|}.

End Utilities.
Arguments ParameterEncoding _ : clear implicits.

(** ** The optimizer *)

Inductive dtype := DT_FLOAT | DT_BFLOAT16.

(** A variable: its unique name (its key in the slot dictionary), its
    storage type and its current value. *)
Record variable (A : Type) := Variable_ {
  var_name : string;
  var_dtype : dtype;
  var_value : tensor A
}.
Arguments Variable_ {A} _ _ _.
Arguments var_name {A} _.
Arguments var_dtype {A} _.
Arguments var_value {A} _.

(** What an assignment op writes to. *)
Inductive target :=
  | TVar (name : string)
  | TSlot (slot_name name : string).

(** [tf.assign(target, value)]. *)
Record assign (A : Type) := Assign {
  assign_target : target;
  assign_value : tensor A
}.
Arguments Assign {A} _ _.
Arguments assign_target {A} _.
Arguments assign_value {A} _.

Inductive exn := ValueError (msg : string).

Section Optimizer.
Context {P A : Type} `{Numerics P A} `{Libm P} `{Libm A}.

(** The slot dictionary of [tf.train.Optimizer], keyed by slot name and
    variable name. *)
Abbreviation slot_store := (gmap (string * string) (tensor A)).

(** The attributes of an [AdafactorOptimizer]. Scalar tensors that read
    the global step when they are run ([_learning_rate], [_decay_rate],
    [_quantization_noise]) are functions of the step. *)
Record AdafactorOptimizer := {
  _multiply_by_parameter_scale : bool;
  _learning_rate : Z -> A;
  _decay_rate : Z -> A;
  _beta1 : P;
  _clipping_threshold : option P;
  _factored : bool;
  _simulated_quantize_bits : option Z;
  _parameter_encoding : option (ParameterEncoding A);
  _quantization_noise : Z -> A;
  _epsilon1 : P;
  _epsilon2 : P;
  _use_locking : bool;
  _name : string
}.

(** [_decay_rate_default], lines 280-281. *)
Definition _decay_rate_default : Z -> A :=
  adafactor_decay_rate_pow (of_Q (8 # 10)).

(** [_learning_rate_default], lines 283-287. *)
Definition _learning_rate_default (multiply_by_parameter_scale : bool) : Z -> A :=
  fun global_step =>
    let learning_rate :=
      fmin (rsqrt (fadd (step_num global_step) (lit 1))) (lit (1 # 100)) in
    if negb multiply_by_parameter_scale
    then fmul learning_rate (lit (5 # 100))
    else learning_rate.

(** [__init__], lines 107-161. *)
Definition AdafactorOptimizer_init
    (multiply_by_parameter_scale : bool)
    (learning_rate decay_rate : option (Z -> A))
    (beta1 : P) (clipping_threshold : option P) (factored : bool)
    (simulated_quantize_bits : option Z)
    (parameter_encoding : option (ParameterEncoding A))
    (use_locking : bool) (name : string) (epsilon1 epsilon2 : P)
  : AdafactorOptimizer :=
  {| _multiply_by_parameter_scale := multiply_by_parameter_scale;
     _learning_rate :=
       match learning_rate with
       | None => _learning_rate_default multiply_by_parameter_scale
       | Some learning_rate => learning_rate
       end;
     _decay_rate :=
       match decay_rate with
       | None => _decay_rate_default
       | Some decay_rate => decay_rate
       end;
     _beta1 := beta1;
     _clipping_threshold := clipping_threshold;
     _factored := factored;
     _simulated_quantize_bits := simulated_quantize_bits;
     _parameter_encoding := parameter_encoding;
     _quantization_noise := noise_from_step_num;
     _epsilon1 := epsilon1;
     _epsilon2 := epsilon2;
     _use_locking := use_locking;
     _name := name |}.

(** [_should_use_factored_second_moment_estimate], lines 163-173. *)
Definition _should_use_factored_second_moment_estimate
    (self : AdafactorOptimizer) (shape : list nat) : bool :=
  _factored self && (2 <=? length shape)%nat.

(** [Optimizer._get_or_make_slot], [Optimizer._zeros_slot] and
    [Optimizer.get_slot] of TensorFlow: a slot is created only if the
    variable has none of that name yet. *)
Definition _get_or_make_slot (slots : slot_store) (var : variable A)
    (val : tensor A) (slot_name : string) : slot_store :=
  match slots !! (slot_name, var_name var) with
  | Some _ => slots
  | None => <[(slot_name, var_name var) := val]> slots
  end.

Definition _zeros_slot (slots : slot_store) (var : variable A)
    (slot_name : string) : slot_store :=
  _get_or_make_slot slots var (zeros (tshape (var_value var))) slot_name.

Definition get_slot (slots : slot_store) (var : variable A)
    (name : string) : option (tensor A) :=
  slots !! (name, var_name var).

(** The body of the loop of [_create_slots], lines 177-187. *)
Definition create_slots_var (self : AdafactorOptimizer) (slots : slot_store)
    (var : variable A) : slot_store :=
  let shape := tshape (var_value var) in
  let slots :=
    if ftruth (_beta1 self) then _zeros_slot slots var "m" else slots in
  if _should_use_factored_second_moment_estimate self shape then
    let r_val := zeros (slice_to shape (-1)) in
    let c_val := zeros (slice_to shape (-2) ++ slice_from shape (-1)) in
    let slots := _get_or_make_slot slots var r_val "vr" in
    _get_or_make_slot slots var c_val "vc"
  else
    let v_val := zeros shape in
    _get_or_make_slot slots var v_val "v".

(** [_create_slots], lines 175-187. *)
Definition _create_slots (self : AdafactorOptimizer)
    (var_list : list (variable A)) (slots : slot_store) : slot_store :=
  fold_left (create_slots_var self) var_list slots.

(** [_parameter_scale], lines 200-214. *)
Definition _parameter_scale (self : AdafactorOptimizer) (var : tensor A) : A :=
  fmax (reduce_rms var) (to_float (_epsilon2 self)).

(** [cast_like], lines 362-379: a float32 value stored into a variable of
    [var]'s type. *)
Definition cast_like (x : tensor A) (var : variable A) : tensor A :=
  match var_dtype var with
  | DT_FLOAT => x
  | DT_BFLOAT16 => tmap to_bfloat16 x
  end.

(** The pieces of [_resource_apply_dense], lines 216-278, named after the
    local variables they compute. The gradient is taken to have the shape
    of the variable, as [apply_gradients] passes it, and the slots the
    shapes [_create_slots] gives them: broadcasting between other shapes,
    and the [ValueError] of incompatible ones, are outside the embedding.
    The one operation of the rule whose operands differ in storage type,
    [var - subtrahend] on line 274 for a bfloat16 variable, raises. *)

(** Lines 218-219: [grad_squared]. *)
Definition dense_grad_squared (self : AdafactorOptimizer) (grad : tensor A)
  : tensor A :=
  tmap (fun g => fadd (square g) (to_float (_epsilon1 self))) grad.

(** Lines 223-225: [old_val]; decoding needs a parameter encoding. *)
Definition dense_old_val (self : AdafactorOptimizer) (var : variable A)
  : option (tensor A) :=
  match var_dtype var with
  | DT_FLOAT => Some (var_value var)
  | DT_BFLOAT16 =>
      match _parameter_encoding self with
      | Some enc => Some (decode enc (var_value var))
      | None => None
      end
  end.

(** Lines 221 and 232: [decay_rate] as used from line 235 on. *)
Definition dense_decay_rate (self : AdafactorOptimizer) (global_step : Z)
    (grad : tensor A) : A :=
  let grad_squared_mean := reduce_mean (dense_grad_squared self grad) in
  let decay_rate := _decay_rate self global_step in
  fadd decay_rate
       (fmul grad_squared_mean (lit (1 # 1000000000000000000000000000000))).

(** Lines 222, 226-227 and 233: [update_scale] as used on line 261. *)
Definition dense_update_scale (self : AdafactorOptimizer) (global_step : Z)
    (grad old_val : tensor A) : A :=
  let grad_squared_mean := reduce_mean (dense_grad_squared self grad) in
  let update_scale := _learning_rate self global_step in
  let update_scale :=
    if _multiply_by_parameter_scale self
    then fmul update_scale (_parameter_scale self old_val)
    else update_scale in
  fadd update_scale
       (fmul grad_squared_mean (lit (1 # 1000000000000000000000000000000))).

(** Lines 238-257: the second-moment update; returns [updates] and [x]. *)
Definition dense_second_moment (self : AdafactorOptimizer)
    (slots : slot_store) (var : variable A) (grad : tensor A)
    (decay_rate : A) : option (list (assign A) * tensor A) :=
  let grad_squared := dense_grad_squared self grad in
  let mixing_rate := fsub (lit 1) decay_rate in
  let shape := tshape (var_value var) in
  if _should_use_factored_second_moment_estimate self shape then
    let grad_squared_row_mean := reduce_mean_last grad_squared in
    let grad_squared_col_mean := reduce_mean_second_last grad_squared in
    vr ← get_slot slots var "vr";
    let new_vr := tzip fadd (tmap (fmul decay_rate) vr)
                            (tmap (fmul mixing_rate) grad_squared_row_mean) in
    vc ← get_slot slots var "vc";
    let new_vc := tzip fadd (tmap (fmul decay_rate) vc)
                            (tmap (fmul mixing_rate) grad_squared_col_mean) in
    let vr_update := Assign (TSlot "vr" (var_name var)) new_vr in
    let vc_update := Assign (TSlot "vc" (var_name var)) new_vc in
    let updates := [vr_update; vc_update] in
    let r_factor := tmap rsqrt (div_by_row_mean new_vr) in
    let c_factor := tmap rsqrt new_vc in
    let x := scale_rows_cols grad r_factor c_factor in
    Some (updates, x)
  else
    v ← get_slot slots var "v";
    let new_v := tzip fadd (tmap (fmul decay_rate) v)
                           (tmap (fmul mixing_rate) grad_squared) in
    let v_update := Assign (TSlot "v" (var_name var)) new_v in
    let updates := [v_update] in
    let x := tzip fmul grad (tmap rsqrt new_v) in
    Some (updates, x).

(** Lines 258-260: update clipping. *)
Definition dense_clip (self : AdafactorOptimizer) (x : tensor A) : tensor A :=
  match _clipping_threshold self with
  | Some clipping_threshold =>
      let clipping_denom :=
        fmax (lit 1) (fdiv (reduce_rms x) (to_float clipping_threshold)) in
      tmap (fun v => fdiv v clipping_denom) x
  | None => x
  end.

(** Lines 262-267: momentum; returns the new [subtrahend] and [updates]. *)
Definition dense_momentum (self : AdafactorOptimizer) (slots : slot_store)
    (var : variable A) (subtrahend : tensor A) (updates : list (assign A))
  : option (tensor A * list (assign A)) :=
  if ftruth (_beta1 self) then
    m ← get_slot slots var "m";
    let new_m :=
      tzip fadd (tmap (fmul (to_float (_beta1 self))) m)
                (tmap (fmul (to_float (fsub (of_Q 1) (_beta1 self)))) subtrahend) in
    let subtrahend := new_m in
    let new_m := cast_like new_m var in
    Some (subtrahend, updates ++ [Assign (TSlot "m" (var_name var)) new_m])
  else Some (subtrahend, updates).

(** Lines 217-261: everything before the momentum branch; returns
    [old_val], [subtrahend] and [updates]. *)
Definition dense_subtrahend (self : AdafactorOptimizer) (global_step : Z)
    (slots : slot_store) (grad : tensor A) (var : variable A)
  : option (tensor A * tensor A * list (assign A)) :=
  old_val ← dense_old_val self var;
  let update_scale := dense_update_scale self global_step grad old_val in
  let decay_rate := dense_decay_rate self global_step grad in
  '(updates, x) ← dense_second_moment self slots var grad decay_rate;
  let x := dense_clip self x in
  let subtrahend := tmap (fmul update_scale) x in
  Some (old_val, subtrahend, updates).

(** Lines 268-278: the new value and the grouped assignments. On line
    274 [var] is the stored variable and [subtrahend] a float32 tensor:
    for a bfloat16 variable the subtraction raises [TypeError]. *)
Definition dense_write (self : AdafactorOptimizer) (global_step : Z)
    (var : variable A) (old_val subtrahend : tensor A)
    (updates : list (assign A)) : option (list (assign A)) :=
  let new_val := tzip fsub old_val subtrahend in
  new_val ←
    match var_dtype var with
    | DT_BFLOAT16 =>
        enc ← _parameter_encoding self;
        Some (encode enc new_val (_quantization_noise self global_step))
    | DT_FLOAT => Some new_val
    end;
  new_val ←
    match _simulated_quantize_bits self with
    | Some bits =>
        if negb (bits =? 0)%Z
        then match var_dtype var with
             | DT_FLOAT =>
                 Some (simulated_quantize
                         (tzip fsub (var_value var) subtrahend) bits
                         (_quantization_noise self global_step))
             | DT_BFLOAT16 => None
             end
        else Some new_val
    | None => Some new_val
    end;
  let var_update := Assign (TVar (var_name var)) new_val in
  let updates := var_update :: updates in
  Some updates.

(** [_resource_apply_dense], lines 216-278: the assignments grouped by the
    returned op, or [None] where Python raises (a missing slot, a bfloat16
    variable without an encoding or with simulated quantization). *)
Definition _resource_apply_dense (self : AdafactorOptimizer) (global_step : Z)
    (slots : slot_store) (grad : tensor A) (handle : variable A)
  : option (list (assign A)) :=
  let var := handle in
  '(old_val, subtrahend, updates) ←
    dense_subtrahend self global_step slots grad var;
  '(subtrahend, updates) ← dense_momentum self slots var subtrahend updates;
  dense_write self global_step var old_val subtrahend updates.

(** The update rule with the momentum branch (lines 262-267) absent: what
    the rule is compared with when [beta1] is zero. *)
Definition resource_apply_dense_no_momentum (self : AdafactorOptimizer)
    (global_step : Z) (slots : slot_store) (grad : tensor A)
    (handle : variable A) : option (list (assign A)) :=
  let var := handle in
  '(old_val, subtrahend, updates) ←
    dense_subtrahend self global_step slots grad var;
  dense_write self global_step var old_val subtrahend updates.

(** Running the grouped assignments: the slot dictionary and the variable
    after the step. *)
Definition run_slots (updates : list (assign A)) (slots : slot_store)
  : slot_store :=
  fold_left
    (fun slots u =>
       match assign_target u with
       | TSlot slot_name name => <[(slot_name, name) := assign_value u]> slots
       | TVar _ => slots
       end)
    updates slots.

Definition run_var (updates : list (assign A)) (var : variable A)
  : variable A :=
  fold_left
    (fun var u =>
       match assign_target u with
       | TVar name =>
           if String.eqb name (var_name var)
           then Variable_ (var_name var) (var_dtype var) (assign_value u)
           else var
       | TSlot _ _ => var
       end)
    updates var.

(** The model hyperparameters read by the factory. The quantization bit
    width is an optional attribute ([getattr] with default 0). *)
Record HParams := {
  optimizer_adafactor_decay_type : string;
  optimizer_adafactor_beta2 : P;
  optimizer_adafactor_memory_exponent : P;
  weight_dtype : string;
  optimizer_adafactor_multiply_by_parameter_scale : bool;
  optimizer_adafactor_beta1 : P;
  optimizer_adafactor_clipping_threshold : option P;
  optimizer_adafactor_factored : bool;
  simulated_parameter_quantize_bits : option Z
}.

(** [adafactor_optimizer_from_hparams], lines 319-354. *)
Definition adafactor_optimizer_from_hparams (hparams : HParams) (lr : Z -> A)
  : exn + AdafactorOptimizer :=
  let decay_rate : exn + (Z -> A) :=
    if String.eqb (optimizer_adafactor_decay_type hparams) "adam" then
      inr (adafactor_decay_rate_adam (optimizer_adafactor_beta2 hparams))
    else if String.eqb (optimizer_adafactor_decay_type hparams) "pow" then
      inr (adafactor_decay_rate_pow
             (optimizer_adafactor_memory_exponent hparams))
    else inl (ValueError "unknown optimizer_adafactor_decay_type") in
  match decay_rate with
  | inl raised => inl raised
  | inr decay_rate =>
      let parameter_encoding :=
        if String.eqb (weight_dtype hparams) "bfloat16"
        then Some (EighthPowerEncoding (P := P))
        else None in
      inr (AdafactorOptimizer_init
             (optimizer_adafactor_multiply_by_parameter_scale hparams)
             (Some lr)
             (Some decay_rate)
             (optimizer_adafactor_beta1 hparams)
             (optimizer_adafactor_clipping_threshold hparams)
             (optimizer_adafactor_factored hparams)
             (Some (default 0%Z (simulated_parameter_quantize_bits hparams)))
             parameter_encoding
             false
             "Adafactor"
             (of_Q (1 # 1000000000000000000000000000000))
             (of_Q (1 # 1000)))
  end.

End Optimizer.

(** ** Exact arithmetic *)

(** Real numbers: no rounding anywhere, so both conversions are the
    identity. [Rpower] is the real power of a positive base, which is what
    every call site of [pow] has (a step count plus one, 5, or a
    coefficient in (0,1)). Division and square root are the total
    functions of the reals ([x / 0 = 0], [sqrt x = 0] for negative [x]),
    where float32 gives an infinity or NaN: a statement read in exact
    arithmetic says so, and carries the hypotheses that keep its divisors
    and the arguments of its square roots positive. *)
Definition R_sign (x : R) : R :=
  if Rlt_dec x 0 then (-1)%R else if Rlt_dec 0 x then 1%R else 0%R.

Definition R_floor (x : R) : R := IZR (Zfloor x).

Definition R_floormod (x y : R) : R := (x - R_floor (x / y) * y)%R.

#[export] Instance R_Float : Float R := {|
  of_Q := Q2R;
  fadd := Rplus;
  fsub := Rminus;
  fmul := Rmult;
  fdiv := Rdiv;
  fopp := Ropp;
  fsqrt := sqrt;
  fabs := Rabs;
  fsign := R_sign;
  ffloor := R_floor;
  fmax := Rmax;
  fmin := Rmin;
  fgt := fun x y => if Rlt_dec y x then true else false;
  ftruth := fun x => if Req_dec_T x 0 then false else true
|}.

#[export] Instance R_Libm : Libm R := {|
  fpow := Rpower;
  fmod := R_floormod
|}.

#[export] Instance R_Numerics : Numerics R R := {|
  py_float := R_Float;
  tf_float := R_Float;
  to_float := fun x => x;
  to_bfloat16 := fun x => x
|}.

(** ** IEEE-754 arithmetic *)

(** A binary floating-point number of precision [prec] and exponent bound
    [emax]; the format is part of the type, so that Python floats, float32
    tensors and their conversion cannot be confused. *)
Record sfloat (prec emax : Z) := SF { sf : spec_float }.
Arguments SF {prec emax} _.
Arguments sf {prec emax} _.

Definition Z2SF (z : Z) : spec_float :=
  match z with
  | Z0 => S754_zero false
  | Zpos p => S754_finite false p 0
  | Zneg p => S754_finite true p 0
  end.

Section SpecFloatOps.
Variables prec emax : Z.

(** The rational [q] rounded to nearest, ties to even: the quotient of two
    exact integers. *)
Definition SF_of_Q (q : Q) : spec_float :=
  SFdiv prec emax (Z2SF (Qnum q)) (Z2SF (Zpos (Qden q))).

(** Rounding a number of another format into this one. *)
Definition SF_round (x : spec_float) : spec_float :=
  match x with
  | S754_finite s m e => binary_round prec emax s m e
  | _ => x
  end.

Definition SF_sign (x : spec_float) : spec_float :=
  match x with
  | S754_nan => S754_nan
  | S754_zero _ => S754_zero false
  | S754_infinity s | S754_finite s _ _ =>
      binary_round prec emax s 1 0
  end.

Definition SF_floor (x : spec_float) : spec_float :=
  match x with
  | S754_finite s m e =>
      if (0 <=? e)%Z then x
      else
        let q := Z.shiftr (Zpos m) (- e) in
        let exact := (Z.shiftl q (- e) =? Zpos m)%Z in
        let z := if s then (if exact then - q else - (q + 1))%Z else q in
        binary_normalize prec emax z 0 false
  | _ => x
  end.

Definition SF_max (x y : spec_float) : spec_float :=
  match x, y with
  | S754_nan, _ | _, S754_nan => S754_nan
  | _, _ => if SFltb x y then y else x
  end.

Definition SF_min (x y : spec_float) : spec_float :=
  match x, y with
  | S754_nan, _ | _, S754_nan => S754_nan
  | _, _ => if SFltb y x then y else x
  end.

Definition lift1 (f : spec_float -> spec_float) (x : sfloat prec emax)
  : sfloat prec emax := SF (f (sf x)).

Definition lift2 (f : spec_float -> spec_float -> spec_float)
    (x y : sfloat prec emax) : sfloat prec emax := SF (f (sf x) (sf y)).

#[export] Instance SF_Float : Float (sfloat prec emax) := {|
  of_Q := fun q => SF (SF_of_Q q);
  fadd := lift2 (SFadd prec emax);
  fsub := lift2 (SFsub prec emax);
  fmul := lift2 (SFmul prec emax);
  fdiv := lift2 (SFdiv prec emax);
  fopp := lift1 SFopp;
  fsqrt := lift1 (SFsqrt prec emax);
  fabs := lift1 SFabs;
  fsign := lift1 SF_sign;
  ffloor := lift1 SF_floor;
  fmax := lift2 SF_max;
  fmin := lift2 SF_min;
  fgt := fun x y => SFltb (sf y) (sf x);
  ftruth := fun x => negb (SFeqb (sf x) (S754_zero false))
|}.

End SpecFloatOps.

(** Python floats are binary64, tensors binary32, encoded parameters
    bfloat16 (8 significant bits, the exponent range of binary32). A
    bfloat16 is kept as the binary32 of the same value, in binary32's
    canonical form. The operations are those of IEEE 754, with gradual
    underflow; TensorFlow's kernels flush float32 subnormals to zero, so
    the float32 statements below are made where the two agree: on normal
    numbers, zeros, infinities and NaN. *)
Abbreviation f64 := (sfloat 53 1024).
Abbreviation f32 := (sfloat 24 128).

#[export] Instance F32_Numerics : Numerics f64 f32 := {|
  py_float := SF_Float 53 1024;
  tf_float := SF_Float 24 128;
  to_float := fun x => SF (SF_round 24 128 (sf x));
  to_bfloat16 := fun x => SF (SF_round 24 128 (SF_round 8 128 (sf x)))
|}.

(** ** The statements of the specification *)

(** The noise generator as the specification words it: the fractional part
    of a sum over the thirty low bits of [t + 1]. *)
Definition phi : R := ((sqrt 5 - 1) / 2)%R.

Definition frac (x : R) : R := (x - IZR (Zfloor x))%R.

Definition bit (i : nat) (n : Z) : Z :=
  (Z.shiftr n (Z.of_nat i) mod 2)%Z.

Fixpoint sum_upto (n : nat) (f : nat -> R) : R :=
  match n with
  | O => 0%R
  | S k => (sum_upto k f + f k)%R
  end.



Definition rms_spec (l : list R) : R :=
  sqrt (sum_upto (length l) (fun i => nth i l 0 * nth i l 0)%R
        / INR (length l)).

Section Statements.
Context {P A : Type} `{Numerics P A}.



(** The slots a freshly registered variable is to have, by slot name:
    the momentum slot if [beta1] is set, and either the row and column
    accumulators or the full accumulator. *)
Definition expected_slot (self : AdafactorOptimizer (P := P) (A := A))
    (var : variable A) (slot_name : string) : option (tensor A) :=
  let shape := tshape (var_value var) in
  if String.eqb slot_name "m" then
    if ftruth (_beta1 self) then Some (zeros shape) else None
  else if _factored self && (2 <=? length shape)%nat then
    if String.eqb slot_name "vr" then Some (zeros (removelast shape))
    else if String.eqb slot_name "vc"
         then Some (zeros (delete (length shape - 2)%nat shape))
         else None
  else if String.eqb slot_name "v" then Some (zeros shape) else None.

(** The variable has the slots its update reads: the momentum slot if
    [beta1] is set, and the accumulators of its second-moment estimate. *)
Definition has_slots (self : AdafactorOptimizer (P := P) (A := A))
    (slots : gmap (string * string) (tensor A)) (var : variable A) : Prop :=
  (ftruth (_beta1 self) = true -> is_Some (slots !! ("m", var_name var))) /\
  (if _should_use_factored_second_moment_estimate self
        (tshape (var_value var))
   then is_Some (slots !! ("vr", var_name var)) /\
        is_Some (slots !! ("vc", var_name var))
   else is_Some (slots !! ("v", var_name var))).

(** Python's test [if self._simulated_quantize_bits]. *)
Definition simulated_quantize_bits_set
    (self : AdafactorOptimizer (P := P) (A := A)) : bool :=
  match _simulated_quantize_bits self with
  | Some bits => negb (bits =? 0)%Z
  | None => false
  end.

(** A tensor whose elements fill its shape; what the caller of the dense
    update provides: a gradient of the variable's shape, and slots of the
    shapes registration gives them. *)
Definition well_formed (t : tensor A) : Prop :=
  length (tdata t) = num_elements (tshape t).

Definition well_shaped (self : AdafactorOptimizer (P := P) (A := A))
    (slots : gmap (string * string) (tensor A)) (grad : tensor A)
    (var : variable A) : Prop :=
  well_formed (var_value var) /\ well_formed grad /\
  tshape grad = tshape (var_value var) /\
  forall slot_name acc z,
    slots !! (slot_name, var_name var) = Some acc ->
    expected_slot self var slot_name = Some z ->
    well_formed acc /\ tshape acc = tshape z.

(** "For every x with rms(x) > c the post-clip rms equals c (up to
    floating tolerance)", the tolerance read as generously as a factor
    of two. *)
Definition clips_to_threshold (self : AdafactorOptimizer (P := P) (A := A))
    (c : A) (x : tensor A) : Prop :=
  fgt (reduce_rms x) c = true ->
  let r := reduce_rms (dense_clip self x) in
  fgt r (fdiv c (lit (P := P) 2)) = true /\
  fgt (fmul c (lit (P := P) 2)) r = true.

(** "When simulated quantization with b bits is configured, the value
    written back to the variable is simulated_quantize(variable -
    subtrahend, b, noise)." *)
Definition writes_back_quantized (self : AdafactorOptimizer (P := P) (A := A))
    (global_step : Z) (slots : gmap (string * string) (tensor A))
    (grad : tensor A) (var : variable A) : Prop :=
  forall bits,
    _simulated_quantize_bits self = Some bits -> bits ≠ 0%Z ->
    exists subtrahend rest,
      _resource_apply_dense self global_step slots grad var
      = Some (Assign (TVar (var_name var))
                (simulated_quantize (P := P)
                   (tzip fsub (var_value var) subtrahend) bits
                   (_quantization_noise self global_step)) :: rest).

(** The encoding round trip, and "to within one representable
    low-precision step" in its most generous reading: one bfloat16 step at
    the magnitude of [x] itself, [|x| / 128]. *)
Definition roundtrip (noise x : A) : A :=
  decode_elem (P := P) (encode_elem (P := P) noise x).

Definition within_one_step (x y : A) : bool :=
  negb (fgt (fabs (fsub y x)) (fmul (fabs x) (lit (P := P) (1 # 128)))).

End Statements.

(** ** Concrete inputs *)

Section ExampleHParams.
Context {P A : Type} `{Numerics P A}.

(** Hyperparameters with a given decay-type selector. *)
Definition example_hparams (decay_type : string) : HParams (P := P) := {|
  optimizer_adafactor_decay_type := decay_type;
  optimizer_adafactor_beta2 := of_Q (999 # 1000);
  optimizer_adafactor_memory_exponent := of_Q (8 # 10);
  weight_dtype := "float32";
  optimizer_adafactor_multiply_by_parameter_scale := true;
  optimizer_adafactor_beta1 := of_Q 0;
  optimizer_adafactor_clipping_threshold := Some (of_Q 1);
  optimizer_adafactor_factored := true;
  simulated_parameter_quantize_bits := None
|}.

End ExampleHParams.

(** [2^-22], [2^-21], [2^-20] and [2^-19], near the lower end [2^-23] of
    the documented range of the eighth-power encoding, and [2^9], its
    upper end. *)
Definition f32_2pow_m22 : f32 := SF (S754_finite false 8388608 (-45)).

Definition f32_2pow_m21 : f32 := SF (S754_finite false 8388608 (-44)).

Definition f32_2pow_m20 : f32 := SF (S754_finite false 8388608 (-43)).

Definition f32_2pow_m19 : f32 := SF (S754_finite false 8388608 (-42)).

Definition f32_2pow_9 : f32 := SF (S754_finite false 8388608 (-14)).

Definition ones_2x2 : tensor f32 := Tensor [2; 2] (replicate 4 (of_Q 1)).

Definition twos_2x2 : tensor f32 := Tensor [2; 2] (replicate 4 (of_Q 2)).

(** An optimizer whose decay-rate tensor is the constant 0.5 and whose
    learning rate is the constant 0.01; parameter scale, clipping and
    epsilons as by default. *)
Definition half_decay_optimizer : AdafactorOptimizer (P := f64) (A := f32) := {|
  _multiply_by_parameter_scale := true;
  _learning_rate := fun _ => lit (P := f64) (1 # 100);
  _decay_rate := fun _ => lit (P := f64) (1 # 2);
  _beta1 := of_Q 0;
  _clipping_threshold := Some (of_Q 1);
  _factored := true;
  _simulated_quantize_bits := None;
  _parameter_encoding := None;
  _quantization_noise := fun _ => lit (P := f64) 0;
  _epsilon1 := of_Q (1 # 1000000000000000000000000000000);
  _epsilon2 := of_Q (1 # 1000);
  _use_locking := false;
  _name := "Adafactor"
|}.

(** The optimizer of the worked example: every argument at its default
    except that clipping is disabled. *)
Definition example_optimizer {L64 : Libm f64} {L32 : Libm f32}
  : AdafactorOptimizer (P := f64) (A := f32) :=
  AdafactorOptimizer_init true None None (of_Q 0) None true None None false
    "Adafactor" (of_Q (1 # 1000000000000000000000000000000)) (of_Q (1 # 1000)).

Definition example_var : variable f32 :=
  Variable_ "w" DT_FLOAT (zeros [2; 2]).

(** An optimizer over the reals with clipping threshold 1, and an update
    to clip. *)
Definition R_clipping_optimizer : AdafactorOptimizer (P := R) (A := R) :=
  AdafactorOptimizer_init true None None 0%R (Some 1%R) true None None false
    "Adafactor" (Q2R (1 # 1000000000000000000000000000000)) (Q2R (1 # 1000)).

Definition R_update_3_4 : tensor R := Tensor [2] [3%R; 4%R].

(** A float32 vector variable holding that value, read over the reals. *)
Definition R_vector_var : variable R := Variable_ "b" DT_FLOAT R_update_3_4.

(** An optimizer with 8-bit simulated quantization and constant
    schedules, a float32 matrix and its accumulators. *)
Definition quantizing_optimizer : AdafactorOptimizer (P := f64) (A := f32) := {|
  _multiply_by_parameter_scale := true;
  _learning_rate := fun _ => lit (P := f64) (1 # 100);
  _decay_rate := fun _ => lit (P := f64) (1 # 2);
  _beta1 := of_Q 0;
  _clipping_threshold := Some (of_Q 1);
  _factored := true;
  _simulated_quantize_bits := Some 8%Z;
  _parameter_encoding := None;
  _quantization_noise := fun _ => lit (P := f64) (1 # 4);
  _epsilon1 := of_Q (1 # 1000000000000000000000000000000);
  _epsilon2 := of_Q (1 # 1000);
  _use_locking := false;
  _name := "Adafactor"
|}.

Definition matrix_var : variable f32 :=
  Variable_ "w" DT_FLOAT
    (Tensor [2; 2] [of_Q 1; of_Q (-2); of_Q (1 # 2); of_Q 3]).

(** The same optimizer with the eighth-power encoding configured, with
    and without simulated quantization, and a matrix stored as bfloat16. *)
Definition encoding_optimizer (bits : option Z)
  : AdafactorOptimizer (P := f64) (A := f32) := {|
  _multiply_by_parameter_scale := true;
  _learning_rate := fun _ => lit (P := f64) (1 # 100);
  _decay_rate := fun _ => lit (P := f64) (1 # 2);
  _beta1 := of_Q 0;
  _clipping_threshold := Some (of_Q 1);
  _factored := true;
  _simulated_quantize_bits := bits;
  _parameter_encoding := Some (EighthPowerEncoding (P := f64));
  _quantization_noise := fun _ => lit (P := f64) (1 # 4);
  _epsilon1 := of_Q (1 # 1000000000000000000000000000000);
  _epsilon2 := of_Q (1 # 1000);
  _use_locking := false;
  _name := "Adafactor"
|}.

Definition bfloat16_matrix_var : variable f32 :=
  Variable_ "w" DT_BFLOAT16 (Tensor [2; 2] (replicate 4 (of_Q 1))).

(** An update whose squares overflow float32: [2^64] twice. *)
Definition f32_huge_update : tensor f32 :=
  Tensor [2] (replicate 2 (SF (S754_finite false 8388608 41))).

Definition vector_var : variable f32 :=
  Variable_ "b" DT_FLOAT (Tensor [3] [of_Q 1; of_Q 2; of_Q 3]).

(** A [pow] and a modulus that answer only where IEEE 754 fixes the
    answer of [pow] exactly ([pow(1, y) = 1]); used to instantiate the
    library parameter. *)
Definition SF_Libm_one (prec emax : Z) : Libm (sfloat prec emax) := {|
  fpow := fun x y =>
    if SFeqb (sf x) (sf (of_Q 1 : sfloat prec emax)) then of_Q 1
    else SF S754_nan;
  fmod := fun x y => SF S754_nan
|}.

(** "The power schedule satisfies [1 - 1/(t+1) <= d < 1]", read in exact
    arithmetic. *)
Definition pow_schedule_bound (e : R) (t : Z) : Prop :=
  let d := adafactor_decay_rate_pow (P := R) (A := R) e t in
  (1 - 1 / (IZR t + 1) <= d < 1)%R.

(** ** bfloat16 values and the stages of the unbiased rounding *)

(** The float32 holding [(-1)^s * m * 2^e]. With [128 <= m <= 255] these
    are the normal bfloat16 values. *)
Definition bfloat16_value (s : bool) (m : positive) (e : Z) : f32 :=
  SF (SF_round 24 128 (S754_finite s m e)).

(** [_to_bfloat16_unbiased] at [x], up to the comparison with the noise:
    the positive [x], the two candidates, and the fraction [fpart] that
    [_randomized_roundoff_to_bfloat16] compares with the noise. *)
Definition unbiased_positive (x : f32) : f32 :=
  fadd (fmul x (fsign x))
       (lit (P := f64) (1 # 1000000000000000000000000000000)).

Definition unbiased_cand1 (x : f32) : f32 :=
  to_bfloat16 (unbiased_positive x).

Definition unbiased_cand2 (x : f32) : f32 :=
  let x' := unbiased_positive x in
  let cand1_f := unbiased_cand1 x in
  to_bfloat16 (if fgt x' cand1_f
               then fmul cand1_f (lit (P := f64) (1005 # 1000))
               else fmul cand1_f (lit (P := f64) (995 # 1000))).

Definition unbiased_fpart (x : f32) : f32 :=
  fdiv (fsub (unbiased_positive x) (unbiased_cand1 x))
       (fsub (unbiased_cand2 x) (unbiased_cand1 x)).

(** Structural equality of floats, and the integers [lo .. lo + n - 1]:
    what a check over all bfloat16 values of a range evaluates. *)
Definition spec_float_eqb (x y : spec_float) : bool :=
  match x, y with
  | S754_zero s, S754_zero s' => Bool.eqb s s'
  | S754_infinity s, S754_infinity s' => Bool.eqb s s'
  | S754_nan, S754_nan => true
  | S754_finite s m e, S754_finite s' m' e' =>
      Bool.eqb s s' && Pos.eqb m m' && Z.eqb e e'
  | _, _ => false
  end.

Definition is_zero (x : spec_float) : bool :=
  match x with
  | S754_zero _ => true
  | _ => false
  end.

Definition zrange (lo : Z) (n : nat) : list Z :=
  map (fun i => (lo + Z.of_nat i)%Z) (seq 0 n).

(** The check that the rounding keeps [+-m * 2^e], on the stages above
    with the three float32 constants of the code passed in. *)
Definition unbiased_keeps (eps up down : f32) (s : bool) (m : positive)
    (e : Z) : bool :=
  let b := bfloat16_value s m e in
  let x_sign := fsign b in
  let x := fadd (fmul b x_sign) eps in
  let cand1 := to_bfloat16 x in
  let cand2 :=
    to_bfloat16 (if fgt x cand1 then fmul cand1 up else fmul cand1 down) in
  let fpart := fdiv (fsub x cand1) (fsub cand2 cand1) in
  is_zero (sf fpart) &&
  spec_float_eqb (sf (to_bfloat16 (fmul cand1 (to_bfloat16 x_sign)))) (sf b).

(** ** Rank-one matrices and a matrix over the reals *)

(** The rows of the rank-one matrix [r_i * c_j]. *)
Definition outer_product (r c : list R) : list (list R) :=
  map (fun ri => map (Rmult ri) c) r.

(** An optimizer over the reals with [epsilon1 = 0], no clipping and no
    momentum, factored or not; a 2x2 variable with its zero accumulators
    of both kinds, and a gradient whose squares are [[1; 4] * [1; 4]^T]. *)
Definition R_plain_optimizer (factored : bool)
  : AdafactorOptimizer (P := R) (A := R) :=
  AdafactorOptimizer_init true None None 0%R None factored None None false
    "Adafactor" 0%R (Q2R (1 # 1000)).

Definition R_matrix_var : variable R :=
  Variable_ "w" DT_FLOAT (Tensor [2; 2] [0%R; 0%R; 0%R; 0%R]).

Definition R_matrix_slots : gmap (string * string) (tensor R) :=
  <[("vr", "w") := zeros [2]]>
    (<[("vc", "w") := zeros [2]]> (<[("v", "w") := zeros [2; 2]]> ∅)).

Definition R_rank_one_grad : tensor R :=
  Tensor [2; 2] [1%R; 2%R; 2%R; 4%R].

(** * Properties *)

(** ** The IEEE reading on known values *)

(** [1e-30] as a float32 is [0x0DA24260]. *)
Example f32_lit_1e_30 :
  lit (P := f64) (1 # 1000000000000000000000000000000)
  = (SF (S754_finite false 10633824 (-123)) : f32).
Proof. vm_compute. reflexivity. Qed.

(** [5 ** 0.5] as a Python float is [0x4001E3779B97F4A8]. *)
Example f64_sqrt_5 :
  fsqrt (of_Q 5) = (SF (S754_finite false 5035177455121576 (-51)) : f64).
Proof. vm_compute. reflexivity. Qed.

(** The default learning rate at step 0 is [min(1, 0.01) = 0.01]. *)
Example f32_learning_rate_default_0 :
  _learning_rate_default (P := f64) true 0 = (lit (P := f64) (1 # 100) : f32).
Proof. vm_compute. reflexivity. Qed.

(** The eighth-power encoding round-trips 1 exactly, without noise. *)
Example f32_roundtrip_one :
  roundtrip (P := f64) (lit (P := f64) 0) (lit (P := f64) 1)
  = (lit (P := f64) 1 : f32).
Proof. vm_compute. reflexivity. Qed.

(** ** Exact arithmetic: reading the interface at [R] *)

Lemma Q2R_one : Q2R 1 = 1%R.
Proof. unfold Q2R; simpl; field. Qed.

Lemma Q2R_zero : Q2R 0 = 0%R.
Proof. unfold Q2R; simpl; field. Qed.

Lemma Q2R_inject_Z (z : Z) : Q2R (inject_Z z) = IZR z.
Proof. unfold Q2R; simpl; field. Qed.

Lemma R_lit (q : Q) : lit (P := R) (A := R) q = Q2R q.
Proof. reflexivity. Qed.

Lemma R_of_int (z : Z) : of_int (P := R) (A := R) z = IZR z.
Proof. unfold of_int; simpl; apply Q2R_inject_Z. Qed.

Lemma R_decay_rate_pow (e : R) (t : Z) :
  adafactor_decay_rate_pow (P := R) (A := R) e t
  = (1 - Rpower (IZR t + 1) (- e))%R.
Proof.
  unfold adafactor_decay_rate_pow, step_num.
  rewrite R_of_int, !R_lit, Q2R_one. reflexivity.
Qed.

(** ** The power decay schedule *)

Lemma Rpower_neg_bounds (x e : R) :
  (1 <= x)%R -> (0 < e < 1)%R ->
  (1 / x <= Rpower x (- e) <= 1)%R.
Proof.
  intros Hx He. split.
  - replace (1 / x)%R with (Rpower x (Ropp 1)).
    + apply Rle_Rpower; lra.
    + rewrite Rpower_Ropp, Rpower_1 by lra. lra.
  - apply Rle_trans with (Rpower x 0).
    + apply Rle_Rpower; lra.
    + rewrite Rpower_O; lra.
Qed.

Lemma Rpower_neg_strict (x e : R) :
  (1 < x)%R -> (0 < e < 1)%R -> (1 / x < Rpower x (- e))%R.
Proof.
  intros Hx He.
  replace (1 / x)%R with (Rpower x (Ropp 1)).
  - apply Rpower_lt; lra.
  - rewrite Rpower_Ropp, Rpower_1 by lra. lra.
Qed.

(** In float32 the step count absorbs the [+ 1] of the schedule from
    [2^24] on, and the value returned is a rounded one: the statement
    about the schedule is made in exact arithmetic. *)
Example f32_step_num_absorbs_one :
  fadd (step_num (P := f64) (2 ^ 24)) (lit (P := f64) 1)
  = (step_num (P := f64) (2 ^ 24) : f32).
Proof. vm_compute. reflexivity. Qed.

(** C2, as amended. In exact arithmetic, for every step [t >= 0] and
    exponent [0 < e < 1] the power schedule returns
    [d = 1 - (t+1)^(-e)], and this value satisfies
    [0 <= d <= 1 - 1/(t+1) < 1]: the bound of the claim holds with the
    inequality reversed, strictly so from step 1 on. *)
Theorem C2_pow_schedule (e : R) (t : Z) :
  (0 <= t)%Z -> (0 < e < 1)%R ->
  let d := adafactor_decay_rate_pow (P := R) (A := R) e t in
  d = (1 - Rpower (IZR t + 1) (- e))%R /\
  (0 <= d <= 1 - 1 / (IZR t + 1))%R /\
  (1 - 1 / (IZR t + 1) < 1)%R /\
  ((1 <= t)%Z -> (d < 1 - 1 / (IZR t + 1))%R).
Proof.
  intros Ht He d. subst d. rewrite R_decay_rate_pow.
  assert (Hx : (1 <= IZR t + 1)%R) by (apply IZR_le in Ht; lra).
  pose proof (Rpower_neg_bounds _ _ Hx He) as [Hlo Hhi].
  split; [reflexivity|]. split; [lra|]. split.
  - assert (0 < 1 / (IZR t + 1))%R by (apply Rdiv_lt_0_compat; lra). lra.
  - intros H1. apply IZR_le in H1.
    assert (Hx' : (1 < IZR t + 1)%R) by lra.
    pose proof (Rpower_neg_strict _ _ Hx' He). lra.
Qed.

Lemma C2_pow_schedule_witness :
  let d := adafactor_decay_rate_pow (P := R) (A := R) (8 / 10)%R 1 in
  d = (1 - Rpower (IZR 1 + 1) (- (8 / 10)))%R /\
  (0 <= d <= 1 - 1 / (IZR 1 + 1))%R /\
  (1 - 1 / (IZR 1 + 1) < 1)%R /\
  ((1 <= 1)%Z -> (d < 1 - 1 / (IZR 1 + 1))%R).
Proof. apply (C2_pow_schedule (8 / 10)%R 1%Z); [lia | lra]. Defined.

(** C2, as stated, fails at step 1 with the default exponent 0.8, in
    exact arithmetic already: there
    [d = 1 - 2^(-0.8) < 1/2 = 1 - 1/(t+1)]. *)
Lemma C2_counterexample :
  (0 <= 1)%Z /\ (0 < 8 / 10 < 1)%R /\ ~ pow_schedule_bound (8 / 10)%R 1%Z.
Proof.
  split; [lia|]. split; [lra|].
  unfold pow_schedule_bound. rewrite R_decay_rate_pow.
  assert (H : (1 / (1 + 1) < Rpower (1 + 1) (- (8 / 10)))%R)
    by (apply Rpower_neg_strict; lra).
  simpl. lra.
Qed.

(** ** The noise generator *)

(** int32 wrap-around keeps the low 32 bits. *)
Lemma wrap32_mod (z : Z) : (wrap32 z mod 2 ^ 32 = z mod 2 ^ 32)%Z.
Proof.
  unfold wrap32.
  rewrite Zminus_mod_idemp_l.
  replace (z + 2 ^ 31 - 2 ^ 31)%Z with z by lia. reflexivity.
Qed.

Lemma int32_step_mod (t : Z) :
  (int32_add (to_int32 t) 1 mod 2 ^ 32 = (t + 1) mod 2 ^ 32)%Z.
Proof.
  unfold int32_add, to_int32.
  rewrite wrap32_mod.
  rewrite <- Zplus_mod_idemp_l, wrap32_mod, Zplus_mod_idemp_l. reflexivity.
Qed.

(** The floor division and floored modulus of the source extract the bits
    of [t + 1], whatever the int32 conversion did to the high ones. *)
Lemma step_bit (t : Z) (i : nat) :
  (i < 32)%nat ->
  ((int32_add (to_int32 t) 1 / 2 ^ Z.of_nat i) mod 2 = bit i (t + 1))%Z.
Proof.
  intros Hi. unfold bit.
  rewrite Z.shiftr_div_pow2 by lia.
  rewrite <- !Z.testbit_spec' by lia.
  f_equal.
  rewrite <- (Z.mod_pow2_bits_low (int32_add (to_int32 t) 1) 32) by lia.
  rewrite <- (Z.mod_pow2_bits_low (t + 1) 32) by lia.
  now rewrite int32_step_mod.
Qed.

Lemma fold_left_sum_upto (f : nat -> R) (n : nat) (a : R) :
  fold_left (fun acc i => (acc + f i)%R) (seq 0 n) a = (a + sum_upto n f)%R.
Proof.
  induction n as [|n IH].
  - simpl. lra.
  - rewrite seq_S, fold_left_app, IH. simpl. lra.
Qed.

Lemma sum_upto_ext (f g : nat -> R) (n : nat) :
  (forall i, (i < n)%nat -> f i = g i) -> sum_upto n f = sum_upto n g.
Proof.
  induction n as [|n IH]; intros Hfg; simpl; [reflexivity|].
  rewrite IH, Hfg by (intros; try apply Hfg; lia). reflexivity.
Qed.

Lemma R_floormod_one (x : R) : R_floormod x (Q2R 1) = frac x.
Proof.
  unfold R_floormod, R_floor, frac. rewrite Q2R_one.
  replace (x / 1)%R with x by field. lra.
Qed.


(** Python's [((5 ** 0.5) - 1) / 2] is the golden-ratio conjugate. *)
Lemma R_phi :
  ((Rpower (Q2R 5) (Q2R (1 # 2)) - Q2R 1) / Q2R 2)%R = phi.
Proof.
  unfold phi.
  replace (Q2R (1 # 2)) with (/ 2)%R by (unfold Q2R; simpl; field).
  replace (Q2R 5) with 5%R by (unfold Q2R; simpl; field).
  replace (Q2R 2) with 2%R by (unfold Q2R; simpl; field).
  rewrite Q2R_one, Rpower_sqrt by lra. reflexivity.
Qed.

(** The interface at [R], unfolded to the operations of [R]. *)
Ltac real_arith :=
  cbv zeta;
  cbn [of_Q fadd fsub fmul fdiv fopp fsqrt fabs fsign ffloor fmax fmin fgt
       ftruth fpow fmod to_float to_bfloat16 py_float tf_float
       R_Numerics R_Float R_Libm].


(** ** Update clipping *)

Lemma R_sum_scaled (k : R) (l : list R) (a : R) :
  fold_left Rplus (map (fun v => k * v)%R l) (k * a)%R
  = (k * fold_left Rplus l a)%R.
Proof.
  revert a. induction l as [|v l IH]; intros a; simpl; [reflexivity|].
  rewrite <- IH. f_equal. lra.
Qed.

Lemma R_sum_squares_nonneg (l : list R) (a : R) :
  (0 <= a)%R -> (0 <= fold_left Rplus (map (fun v => v * v)%R l) a)%R.
Proof.
  revert a. induction l as [|v l IH]; intros a Ha; simpl; [exact Ha|].
  apply IH. nra.
Qed.

Lemma R_reduce_rms_unfold (x : tensor R) :
  reduce_rms x
  = sqrt (fold_left Rplus (map (fun v => v * v)%R (tdata x)) 0%R
          / IZR (Z.of_nat (length (tdata x))))%R.
Proof.
  unfold reduce_rms, reduce_mean, reduce_mean_list, reduce_sum_list, tmap, square.
  cbn [tdata]. real_arith.
  rewrite Q2R_zero, Q2R_inject_Z, length_map. reflexivity.
Qed.

Lemma R_reduce_rms_nonneg (x : tensor R) : (0 <= reduce_rms x)%R.
Proof. rewrite R_reduce_rms_unfold. apply sqrt_pos. Qed.

(** Dividing every element by [d > 0] divides the root mean square by
    [d]. *)
Lemma R_reduce_rms_div (x : tensor R) (d : R) :
  (0 < d)%R ->
  reduce_rms (tmap (fun v => v / d)%R x) = (reduce_rms x / d)%R.
Proof.
  intros Hd. rewrite !R_reduce_rms_unfold. unfold tmap. cbn [tdata].
  rewrite length_map, map_map.
  set (n := IZR (Z.of_nat (length (tdata x)))).
  assert (Hn : (0 <= / n)%R).
  { destruct (Req_dec n 0%R) as [Hn | Hn]; [rewrite Hn, Rinv_0; lra|].
    left. apply Rinv_0_lt_compat.
    assert (0 <= n)%R by (apply IZR_le; lia). lra. }
  rewrite (map_ext _ (fun v => (/ (d * d) * (fun v => v * v) v)%R))
    by (intros; field; lra).
  rewrite <- (map_map (fun v => v * v)%R (fun w => / (d * d) * w)%R).
  replace 0%R with (/ (d * d) * 0)%R at 1 by lra.
  rewrite R_sum_scaled.
  pose proof (R_sum_squares_nonneg (tdata x) 0%R (Rle_refl 0%R)) as Hs.
  set (s := fold_left Rplus (map (fun v => v * v)%R (tdata x)) 0%R) in *.
  replace (/ (d * d) * s / n)%R with ((s / n) * (/ d * / d))%R
    by (unfold Rdiv; rewrite Rinv_mult; ring).
  rewrite sqrt_mult_alt by (unfold Rdiv; apply Rmult_le_pos; assumption).
  rewrite sqrt_square by (left; apply Rinv_0_lt_compat; exact Hd).
  reflexivity.
Qed.

Lemma R_dense_clip_unfold (self : AdafactorOptimizer (P := R) (A := R))
    (c : R) (x : tensor R) :
  _clipping_threshold self = Some c ->
  dense_clip self x = tmap (fun v => v / Rmax 1 (reduce_rms x / c))%R x.
Proof.
  intros Hc. unfold dense_clip. rewrite Hc, R_lit, Q2R_one. reflexivity.
Qed.

Lemma tmap_id {A : Type} (f : A -> A) (x : tensor A) :
  (forall v, f v = v) -> tmap f x = x.
Proof.
  intros Hf. destruct x as [sh d]. unfold tmap. cbn [tshape tdata].
  f_equal. rewrite (map_ext f (fun v => v)) by exact Hf. apply map_id.
Qed.

(** The sum the code accumulates from the left is the sum over the
    indices. *)
Lemma fold_left_Rplus_sum_upto (l : list R) (a : R) :
  fold_left Rplus l a = (a + sum_upto (length l) (fun i => nth i l 0))%R.
Proof.
  induction l as [|v l IH] using rev_ind; [simpl; lra|].
  rewrite fold_left_app, IH, length_app, Nat.add_1_r. cbn [fold_left sum_upto].
  rewrite nth_middle.
  rewrite (sum_upto_ext (fun i => nth i (l ++ [v]) 0%R) (fun i => nth i l 0%R))
    by (intros i Hi; apply app_nth1, Hi).
  lra.
Qed.


(** [reduce_rms] is the root of the mean of the squares. *)
Lemma R_reduce_rms_spec (x : tensor R) : reduce_rms x = rms_spec (tdata x).
Proof.
  rewrite R_reduce_rms_unfold. unfold rms_spec.
  rewrite fold_left_Rplus_sum_upto, Rplus_0_l, length_map, <- INR_IZR_INZ.
  do 2 f_equal. apply sum_upto_ext. intros i Hi.
  rewrite (nth_indep _ 0%R ((fun v => v * v)%R 0%R))
    by (rewrite length_map; exact Hi).
  apply (map_nth (fun v => (v * v)%R)).
Qed.

(** C5, as amended. In exact arithmetic, with a clipping threshold
    [c >= 1] configured and a non-empty update: [reduce_rms] is the root
    of the mean of the squares, and the update rule divides the normalized
    update [x] by [denom = max(1, rms(x)/c)]. When [rms(x) > c] the clipped update has
    root mean square exactly [c]; when [rms(x) <= c] it is [x] itself;
    and always every element is divided by the same scalar [denom >= 1],
    so the ratio of any two elements is kept. *)
Theorem C5_update_clipping (self : AdafactorOptimizer (P := R) (A := R))
    (c : R) (x : tensor R) :
  _clipping_threshold self = Some c -> (1 <= c)%R -> tdata x <> [] ->
  let rms := rms_spec (tdata x) in
  let denom := Rmax 1 (rms / c) in
  reduce_rms x = rms /\
  dense_clip self x = tmap (fun v => v / denom)%R x /\
  (1 <= denom)%R /\
  ((rms > c)%R -> rms_spec (tdata (dense_clip self x)) = c) /\
  ((rms <= c)%R -> dense_clip self x = x) /\
  (forall i j a b a' b',
      tdata x !! i = Some a -> tdata x !! j = Some b ->
      tdata (dense_clip self x) !! i = Some a' ->
      tdata (dense_clip self x) !! j = Some b' ->
      (a' * b = a * b')%R).
Proof.
  intros Hc Hc1 _ rms denom.
  pose proof (R_reduce_rms_spec x) as Hrms. fold rms in Hrms.
  pose proof (R_dense_clip_unfold self c x Hc) as Hclip.
  rewrite Hrms in Hclip. fold denom in Hclip.
  assert (Hd : (1 <= denom)%R) by apply Rmax_l.
  split; [exact Hrms|]. split; [exact Hclip|]. split; [exact Hd|].
  split; [|split].
  - intros Hgt. rewrite <- R_reduce_rms_spec, Hclip, R_reduce_rms_div by lra.
    rewrite Hrms.
    assert (Hq : (1 < rms / c)%R).
    { apply Rmult_lt_reg_r with c; [lra|].
      unfold Rdiv. rewrite Rmult_assoc, Rinv_l by lra. lra. }
    unfold denom. rewrite Rmax_right by lra. field. lra.
  - intros Hle. rewrite Hclip.
    assert (Hq : (rms / c <= 1)%R).
    { apply Rmult_le_reg_r with c; [lra|].
      unfold Rdiv. rewrite Rmult_assoc, Rinv_l by lra. lra. }
    apply tmap_id. intros v. unfold denom. rewrite Rmax_left by lra. field.
  - intros i j a b a' b' Hi Hj Hi' Hj'.
    rewrite Hclip in Hi', Hj'. unfold tmap in Hi', Hj'. cbn [tdata] in Hi', Hj'.
    rewrite list_lookup_fmap in Hi', Hj'.
    rewrite Hi in Hi'. rewrite Hj in Hj'. simpl in Hi', Hj'.
    injection Hi' as <-. injection Hj' as <-. field. lra.
Qed.

Lemma C5_update_clipping_witness :
  let self := R_clipping_optimizer in
  let x := R_update_3_4 in
  let rms := rms_spec (tdata x) in
  let denom := Rmax 1 (rms / 1) in
  reduce_rms x = rms /\
  dense_clip self x = tmap (fun v => v / denom)%R x /\
  (1 <= denom)%R /\
  ((rms > 1)%R -> rms_spec (tdata (dense_clip self x)) = 1%R) /\
  ((rms <= 1)%R -> dense_clip self x = x) /\
  (forall i j a b a' b',
      tdata x !! i = Some a -> tdata x !! j = Some b ->
      tdata (dense_clip self x) !! i = Some a' ->
      tdata (dense_clip self x) !! j = Some b' ->
      (a' * b = a * b')%R).
Proof.
  apply (C5_update_clipping R_clipping_optimizer 1%R R_update_3_4);
    [reflexivity | lra | discriminate].
Defined.

(** C5, as stated, fails in the arithmetic the code runs in. With the
    threshold at 1 and the update [[2^64; 2^64]], the squares overflow
    float32: [reduce_rms] is infinite, so is [denom], and the clipped
    update is all zeros, of root mean square 0 and not near 1. *)
Lemma C5_counterexample :
  _clipping_threshold half_decay_optimizer = Some (of_Q 1) /\
  dense_clip half_decay_optimizer f32_huge_update = zeros [2] /\
  ~ clips_to_threshold (P := f64) half_decay_optimizer (lit (P := f64) 1)
      f32_huge_update.
Proof.
  split; [reflexivity|]. split; [vm_compute; reflexivity|].
  unfold clips_to_threshold. intros Hclaim.
  assert (Hgt : fgt (reduce_rms f32_huge_update) (lit (P := f64) 1 : f32)
                = true) by (vm_compute; reflexivity).
  apply Hclaim in Hgt. destruct Hgt as [Hlow _].
  vm_compute in Hlow. discriminate Hlow.
Qed.

(** ** The anti-fusion perturbation *)

Lemma R_sum_nonneg (l : list R) (a : R) :
  (0 <= a)%R -> Forall (fun v => 0 <= v)%R l ->
  (0 <= fold_left Rplus l a)%R.
Proof.
  intros Ha Hl. revert a Ha.
  induction Hl as [|v l Hv Hl IH]; intros a Ha; simpl; [exact Ha|].
  apply IH. lra.
Qed.

Lemma R_grad_squared_mean_nonneg
    (self : AdafactorOptimizer (P := R) (A := R)) (grad : tensor R) :
  (0 <= _epsilon1 self)%R ->
  (0 <= reduce_mean (dense_grad_squared self grad))%R.
Proof.
  intros He.
  unfold reduce_mean, reduce_mean_list, reduce_sum_list, dense_grad_squared,
    tmap, square.
  cbn [tdata]. real_arith. rewrite Q2R_zero, Q2R_inject_Z.
  apply Rmult_le_pos.
  - apply R_sum_nonneg; [lra|].
    apply Forall_forall. intros v Hv.
    apply list_elem_of_fmap in Hv as (g & -> & _). nra.
  - set (n := IZR (Z.of_nat _)).
    destruct (Req_dec n 0%R) as [Hn | Hn]; [rewrite Hn, Rinv_0; lra|].
    left. apply Rinv_0_lt_compat.
    assert (0 <= n)%R by (apply IZR_le; lia). lra.
Qed.





(** ** The worked example of the dense update, run in float32 *)

(** C1. Variable of shape [2,2], all zeros; gradient all ones; global
    step 0; default epsilons; clipping disabled; [beta1 = 0]; no encoding;
    factored, scaled by the parameter scale. For any [pow] with
    [pow(1, y) = 1], the schedule's decay at step 0 is [1 - 1^(-0.8) = 0]
    and the mixing rate is 1; one dense update leaves the row and column
    accumulators equal to [mixing_rate * mean(grad^2 + epsilon1)] along
    their axis (here [[1, 1]]), and the new variable value has four
    identical, strictly negative entries. *)
Theorem C1_dense_update_example (L64 : Libm f64) (L32 : Libm f32) :
  (forall y : f32, fpow (of_Q 1) y = of_Q 1) ->
  let self := example_optimizer in
  let var := example_var in
  let grad := ones_2x2 in
  let slots := _create_slots self [var] ∅ in
  let mixing_rate := fsub (lit (P := f64) 1) (dense_decay_rate self 0 grad) in
  let grad_squared := dense_grad_squared self grad in
  let v : f32 := SF (S754_finite true 10995117 (-40)) in
  _decay_rate self 0 = of_Q 0 /\
  mixing_rate = of_Q 1 /\
  exists updates,
    _resource_apply_dense self 0 slots grad var = Some updates /\
    run_slots updates slots !! ("vr", "w")
    = Some (tmap (fmul mixing_rate) (reduce_mean_last grad_squared)) /\
    run_slots updates slots !! ("vc", "w")
    = Some (tmap (fmul mixing_rate) (reduce_mean_second_last grad_squared)) /\
    run_slots updates slots !! ("vr", "w")
    = Some (Tensor [2] [of_Q 1; of_Q 1]) /\
    run_slots updates slots !! ("vc", "w")
    = Some (Tensor [2] [of_Q 1; of_Q 1]) /\
    var_value (run_var updates var) = Tensor [2; 2] [v; v; v; v] /\
    fgt (of_Q 0) v = true.
Proof.
  intros Hpow self var grad slots mixing_rate grad_squared v.
  assert (Hdecay : _decay_rate self 0 = of_Q 0).
  { unfold self, example_optimizer, AdafactorOptimizer_init.
    cbn [_decay_rate]. unfold _decay_rate_default, adafactor_decay_rate_pow.
    replace (fadd (step_num 0) (lit (P := f64) 1)) with (of_Q 1 : f32)
      by (vm_compute; reflexivity).
    rewrite Hpow. vm_compute. reflexivity. }
  assert (Hmix : mixing_rate = of_Q 1).
  { unfold mixing_rate, dense_decay_rate. rewrite Hdecay.
    vm_compute. reflexivity. }
  split; [exact Hdecay|]. split; [exact Hmix|].
  assert (Hrun : _resource_apply_dense self 0 slots grad var
                 = Some [Assign (TVar "w") (Tensor [2; 2] [v; v; v; v]);
                         Assign (TSlot "vr" "w") (Tensor [2] [of_Q 1; of_Q 1]);
                         Assign (TSlot "vc" "w") (Tensor [2] [of_Q 1; of_Q 1])]).
  { unfold _resource_apply_dense, dense_subtrahend, dense_decay_rate.
    rewrite Hdecay. vm_compute. reflexivity. }
  eexists. split; [exact Hrun|].
  rewrite Hmix.
  repeat split; vm_compute; reflexivity.
Qed.

Lemma C1_dense_update_example_witness :
  let L64 := SF_Libm_one 53 1024 in
  let L32 := SF_Libm_one 24 128 in
  (forall y : f32, fpow (of_Q 1) y = of_Q 1) /\
  _decay_rate example_optimizer 0 = of_Q 0 /\
  exists updates,
    _resource_apply_dense example_optimizer 0
      (_create_slots example_optimizer [example_var] ∅) ones_2x2 example_var
    = Some updates.
Proof.
  intros L64 L32.
  assert (Hpow : forall y : f32, fpow (of_Q 1) y = of_Q 1)
    by (intros y; reflexivity).
  split; [exact Hpow|].
  destruct (C1_dense_update_example L64 L32 Hpow)
    as (Hdecay & _ & updates & Hrun & _).
  split; [exact Hdecay|]. exists updates. exact Hrun.
Defined.

(** ** The eighth-power encoding, run in float32 and bfloat16 *)

(** C4, evaluated at [x = 2^-22], inside the range the class documents
    and where every intermediate value is a normal float32: the eighth
    power [(x * 128)^8] is [2^-120]. Whatever the noise, the guard
    [+ 1e-30] of [_to_bfloat16_unbiased] swamps it: the round trip returns
    one of the two bfloat16 neighbours of [1e-30] decoded, about
    [1.39e-6], which is more than five times [x] and not within a bfloat16
    step of it. Nor is the round trip within a step of [x] at [2^-21],
    [2^-20] and [2^-19]. *)
Theorem C4_roundtrip_at_lower_end (noise : f32) :
  let x := f32_2pow_m22 in
  let y := roundtrip (P := f64) noise x in
  fmul (fsign x)
       (square (square (square (fmul (fabs x) (lit (P := f64) 128)))))
  = SF (S754_finite false 8388608 (-143)) /\
  (y = SF (S754_finite false 12217800 (-43)) \/
   y = SF (S754_finite false 12227202 (-43))) /\
  fgt y (fmul (lit (P := f64) 5) x) = true /\
  Forall (fun x => within_one_step (P := f64) x (roundtrip (P := f64) noise x)
                   = false)
         [f32_2pow_m22; f32_2pow_m21; f32_2pow_m20; f32_2pow_m19].
Proof.
  intros x y. subst x y.
  split; [vm_compute; reflexivity|].
  unfold roundtrip, encode_elem, _to_bfloat16_unbiased,
    _randomized_roundoff_to_bfloat16.
  cbv zeta.
  split; [|split].
  - destruct (fgt _ noise);
      [right; vm_compute; reflexivity | left; vm_compute; reflexivity].
  - destruct (fgt _ noise); vm_compute; reflexivity.
  - repeat (apply Forall_cons; split;
            [destruct (fgt _ noise); vm_compute; reflexivity|]).
    apply Forall_nil_2.
Qed.

(** At the upper end [2^9] the eighth power is [2^128], which overflows
    float32: the round trip returns infinity. *)
Lemma roundtrip_at_upper_end (noise : f32) :
  roundtrip (P := f64) noise f32_2pow_9 = SF (S754_infinity false).
Proof.
  unfold roundtrip, encode_elem, _to_bfloat16_unbiased,
    _randomized_roundoff_to_bfloat16.
  cbv zeta.
  destruct (fgt _ noise); vm_compute; reflexivity.
Qed.

(** ** Accumulator allocation *)

Lemma slice_to_removelast {X} (l : list X) : slice_to l (-1) = removelast l.
Proof.
  unfold slice_to, py_bound. simpl.
  rewrite removelast_firstn_len. f_equal. lia.
Qed.

Lemma slice_delete_second_last {X} (l : list X) :
  (2 <= length l)%nat ->
  slice_to l (-2) ++ slice_from l (-1) = delete (length l - 2)%nat l.
Proof.
  intros Hl. unfold slice_to, slice_from, py_bound. simpl.
  rewrite delete_take_drop. f_equal; f_equal; lia.
Qed.

Section SlotProperties.
Context {P A : Type} `{Numerics P A}.
Implicit Types (self : AdafactorOptimizer (P := P) (A := A)).
Implicit Types (slots : gmap (string * string) (tensor A)).
Implicit Types (var : variable A).

Lemma get_or_make_slot_lookup slots var val s' s n :
  _get_or_make_slot slots var val s' !! (s, n)
  = if String.eqb s s' && String.eqb n (var_name var)
    then Some (default val (slots !! (s, n)))
    else slots !! (s, n).
Proof.
  unfold _get_or_make_slot.
  destruct (String.eqb_spec s s') as [-> | Hs];
    destruct (String.eqb_spec n (var_name var)) as [-> | Hn]; simpl.
  - destruct (slots !! (s', var_name var)) eqn:E; simpl.
    + exact E.
    + apply lookup_insert_eq.
  - destruct (slots !! (s', var_name var)); [reflexivity|].
    apply lookup_insert_ne. congruence.
  - destruct (slots !! (s', var_name var)); [reflexivity|].
    apply lookup_insert_ne. congruence.
  - destruct (slots !! (s', var_name var)); [reflexivity|].
    apply lookup_insert_ne. congruence.
Qed.

(** Registering a variable leaves the slots of every other variable as
    they were. *)
Lemma create_slots_var_other self slots var s n :
  n ≠ var_name var ->
  create_slots_var self slots var !! (s, n) = slots !! (s, n).
Proof.
  intros Hn. apply String.eqb_neq in Hn.
  unfold create_slots_var, _zeros_slot. cbv zeta.
  destruct (ftruth (_beta1 self));
    destruct (_should_use_factored_second_moment_estimate self _);
    rewrite !get_or_make_slot_lookup, ?Hn, ?andb_false_r; reflexivity.
Qed.

(** Registering a variable that has no slot yet gives it exactly the
    expected ones. *)
Lemma create_slots_var_fresh self slots var s :
  (forall s', slots !! (s', var_name var) = None) ->
  create_slots_var self slots var !! (s, var_name var)
  = expected_slot self var s.
Proof.
  intros Hnone.
  unfold create_slots_var, _zeros_slot, expected_slot,
    _should_use_factored_second_moment_estimate.
  cbv zeta.
  destruct (ftruth (_beta1 self));
    destruct (_factored self); cbn [andb];
    destruct (2 <=? length (tshape (var_value var)))%nat eqn:Hrank;
    rewrite !get_or_make_slot_lookup, !String.eqb_refl, !andb_true_r, ?Hnone;
    try (apply Nat.leb_le in Hrank;
         rewrite slice_to_removelast, slice_delete_second_last by exact Hrank);
    destruct (String.eqb_spec s "m") as [-> | Hm]; cbn; try reflexivity;
    destruct (String.eqb_spec s "vr") as [-> | Hvr]; cbn; try reflexivity;
    destruct (String.eqb_spec s "vc") as [-> | Hvc]; cbn; try reflexivity;
    destruct (String.eqb_spec s "v") as [-> | Hv]; cbn; try reflexivity.
Qed.

Lemma create_slots_other self var_list slots s n :
  n ∉ map var_name var_list ->
  _create_slots self var_list slots !! (s, n) = slots !! (s, n).
Proof.
  unfold _create_slots. revert slots.
  induction var_list as [|var var_list IH]; intros slots Hn; simpl;
    [reflexivity|].
  rewrite IH by (intros Hin; apply Hn; simpl; right; exact Hin).
  apply create_slots_var_other.
  intros ->. apply Hn. simpl. left.
Qed.

Lemma create_slots_expected self var_list var s :
  NoDup (map var_name var_list) -> var ∈ var_list ->
  _create_slots self var_list ∅ !! (s, var_name var)
  = expected_slot self var s.
Proof.
  intros Hnd Hin.
  apply list_elem_of_split in Hin as (l1 & l2 & ->).
  rewrite map_app in Hnd. simpl in Hnd.
  apply NoDup_app in Hnd as (_ & Hl1 & Hnd).
  apply NoDup_cons in Hnd as (Hl2 & _).
  unfold _create_slots. rewrite fold_left_app. simpl.
  fold (_create_slots self l1 ∅).
  fold (_create_slots self l2
          (create_slots_var self (_create_slots self l1 ∅) var)).
  rewrite create_slots_other by exact Hl2.
  apply create_slots_var_fresh. intros s'.
  rewrite create_slots_other; [apply lookup_empty|].
  intros Hin. apply (Hl1 _ Hin). left.
Qed.

Lemma zeros_all_zero (shape : list nat) :
  Forall (fun v : A => v = of_Q 0) (tdata (zeros shape)).
Proof. unfold zeros. cbn [tdata]. apply Forall_replicate. reflexivity. Qed.

(** C9. After registration from an empty slot dictionary, a variable of a
    list of distinctly named variables has: if factorization is enabled
    and its rank is at least 2, a row accumulator ["vr"] shaped like the
    variable without its last dimension and a column accumulator ["vc"]
    shaped like it without its second-to-last dimension, and no full
    accumulator ["v"]; otherwise the full accumulator ["v"] of the
    variable's shape and neither ["vr"] nor ["vc"]. Beside these there is
    only the momentum slot ["m"], present exactly when [beta1] is set, and
    every slot is all zeros. *)
Theorem C9_create_slots self (var_list : list (variable A)) var :
  NoDup (map var_name var_list) -> var ∈ var_list ->
  let slots := _create_slots self var_list ∅ in
  let shape := tshape (var_value var) in
  let name := var_name var in
  (if _factored self && (2 <=? length shape)%nat
   then slots !! ("vr", name) = Some (zeros (removelast shape)) /\
        slots !! ("vc", name)
        = Some (zeros (delete (length shape - 2)%nat shape)) /\
        slots !! ("v", name) = None
   else slots !! ("v", name) = Some (zeros shape) /\
        slots !! ("vr", name) = None /\
        slots !! ("vc", name) = None) /\
  slots !! ("m", name)
  = (if ftruth (_beta1 self) then Some (zeros shape) else None) /\
  (forall s, s ∉ ["vr"; "vc"; "v"; "m"] -> slots !! (s, name) = None) /\
  (forall s t, slots !! (s, name) = Some t ->
               Forall (fun v : A => v = of_Q 0) (tdata t)).
Proof.
  intros Hnd Hin slots shape name.
  assert (Hexp : forall s, slots !! (s, name) = expected_slot self var s)
    by (intros s; apply create_slots_expected; assumption).
  split; [|split; [|split]].
  - rewrite !Hexp. unfold expected_slot. fold shape.
    destruct (_factored self && (2 <=? length shape)%nat); cbn; repeat split.
  - rewrite Hexp. reflexivity.
  - intros s Hs. rewrite Hexp. unfold expected_slot. fold shape.
    destruct (String.eqb_spec s "m") as [-> | _];
      [exfalso; apply Hs; repeat constructor|].
    destruct (String.eqb_spec s "vr") as [-> | _];
      [exfalso; apply Hs; repeat constructor|].
    destruct (String.eqb_spec s "vc") as [-> | _];
      [exfalso; apply Hs; repeat constructor|].
    destruct (String.eqb_spec s "v") as [-> | _];
      [exfalso; apply Hs; repeat constructor|].
    destruct (_factored self && (2 <=? length shape)%nat); reflexivity.
  - intros s t. rewrite Hexp. unfold expected_slot.
    repeat match goal with
           | |- context [if ?b then _ else _] => destruct b
           end; intros [=]; subst t; apply zeros_all_zero.
Qed.

End SlotProperties.

Lemma C9_create_slots_witness :
  let self := quantizing_optimizer in
  let var_list := [matrix_var; vector_var] in
  NoDup (map var_name var_list) /\
  matrix_var ∈ var_list /\
  _create_slots self var_list ∅ !! ("vr", "w") = Some (zeros [2]) /\
  _create_slots self var_list ∅ !! ("vc", "w") = Some (zeros [2]) /\
  _create_slots self var_list ∅ !! ("v", "w") = None /\
  _create_slots self var_list ∅ !! ("m", "w") = None.
Proof.
  intros self var_list.
  assert (Hnd : NoDup (map var_name var_list)).
  { apply NoDup_cons. split; [|apply NoDup_singleton].
    intros Hin. apply list_elem_of_singleton in Hin. discriminate Hin. }
  assert (Hin : matrix_var ∈ var_list) by apply list_elem_of_here.
  destruct (C9_create_slots self var_list matrix_var Hnd Hin)
    as ((Hvr & Hvc & Hv) & Hm & _).
  repeat split; assumption.
Defined.

(** ** Momentum and the factory *)

Section UpdateProperties.
Context {P A : Type} `{Numerics P A} `{Libm P} `{Libm A}.
Implicit Types (self : AdafactorOptimizer (P := P) (A := A)).
Implicit Types (slots : gmap (string * string) (tensor A)).
Implicit Types (var : variable A).

Ltac list_mem :=
  repeat first [apply list_elem_of_here | apply list_elem_of_further].

Ltac list_not_mem H :=
  repeat (apply elem_of_cons in H as [H | H]; [discriminate H|]);
  apply elem_of_nil in H; destruct H.

(** The second-moment update reads the slots ["vr"], ["vc"] and ["v"]
    only. *)
Lemma dense_second_moment_reads self slots slots' var (grad : tensor A) d :
  (forall s n, s ≠ "m" -> slots !! (s, n) = slots' !! (s, n)) ->
  dense_second_moment self slots' var grad d
  = dense_second_moment self slots var grad d.
Proof.
  intros Hagree. unfold dense_second_moment, get_slot.
  rewrite (Hagree "vr"), (Hagree "vc"), (Hagree "v") by discriminate.
  reflexivity.
Qed.

(** It writes to those slots only. *)
Lemma dense_second_moment_writes self slots var (grad : tensor A) d ups x u :
  dense_second_moment self slots var grad d = Some (ups, x) ->
  u ∈ ups ->
  assign_target u ∈ [TSlot "vr" (var_name var); TSlot "vc" (var_name var);
                     TSlot "v" (var_name var)].
Proof.
  unfold dense_second_moment.
  destruct (_should_use_factored_second_moment_estimate self _).
  - destruct (get_slot slots var "vr"); [|discriminate]. cbn.
    destruct (get_slot slots var "vc"); [|discriminate]. cbn.
    intros [= <- _] Hu.
    apply elem_of_cons in Hu as [-> | Hu]; [cbn; list_mem|].
    apply elem_of_cons in Hu as [-> | Hu]; [cbn; list_mem|].
    apply elem_of_nil in Hu. destruct Hu.
  - destruct (get_slot slots var "v"); [|discriminate]. cbn.
    intros [= <- _] Hu.
    apply elem_of_cons in Hu as [-> | Hu]; [cbn; list_mem|].
    apply elem_of_nil in Hu. destruct Hu.
Qed.

Lemma create_slots_var_no_momentum self slots var name :
  ftruth (_beta1 self) = false ->
  create_slots_var self slots var !! ("m", name) = slots !! ("m", name).
Proof.
  intros Hb. unfold create_slots_var. cbv zeta. rewrite Hb.
  destruct (_should_use_factored_second_moment_estimate self _);
    rewrite !get_or_make_slot_lookup; reflexivity.
Qed.

(** C8. When [beta1] is zero (Python's test [if self._beta1] fails):
    registering variables creates no momentum slot; the update neither
    reads the momentum slots (its result is the same for slot
    dictionaries that differ only there) nor writes one; and its
    assignments (the new variable value and the new accumulator values)
    are exactly those of the rule without the momentum branch. *)
Theorem C8_zero_momentum self (t : Z) slots (grad : tensor A) var :
  ftruth (_beta1 self) = false ->
  (forall var_list slots0 name,
      _create_slots self var_list slots0 !! ("m", name)
      = slots0 !! ("m", name)) /\
  (forall slots',
      (forall s n, s ≠ "m" -> slots !! (s, n) = slots' !! (s, n)) ->
      _resource_apply_dense self t slots' grad var
      = _resource_apply_dense self t slots grad var) /\
  (forall updates u name,
      _resource_apply_dense self t slots grad var = Some updates ->
      u ∈ updates -> assign_target u ≠ TSlot "m" name) /\
  _resource_apply_dense self t slots grad var
  = resource_apply_dense_no_momentum self t slots grad var.
Proof.
  intros Hb.
  assert (Heq : forall slots1,
             _resource_apply_dense self t slots1 grad var
             = resource_apply_dense_no_momentum self t slots1 grad var).
  { intros slots1.
    unfold _resource_apply_dense, resource_apply_dense_no_momentum.
    destruct (dense_subtrahend self t slots1 grad var) as [[[o s] u]|];
      [|reflexivity].
    cbn. unfold dense_momentum. rewrite Hb. reflexivity. }
  split; [|split; [|split]].
  - intros var_list. unfold _create_slots.
    induction var_list as [|v var_list IH]; intros slots0 name; simpl;
      [reflexivity|].
    rewrite IH. apply create_slots_var_no_momentum. exact Hb.
  - intros slots' Hagree. rewrite !Heq.
    unfold resource_apply_dense_no_momentum, dense_subtrahend.
    destruct (dense_old_val self var); [|reflexivity]. cbn.
    rewrite (dense_second_moment_reads self slots slots') by exact Hagree.
    reflexivity.
  - intros updates u name. rewrite Heq.
    unfold resource_apply_dense_no_momentum, dense_subtrahend, dense_write.
    destruct (dense_old_val self var) as [old_val|]; [|discriminate]. cbn.
    destruct (dense_second_moment self slots var grad _) as [[ups x]|] eqn:Hsm;
      [|discriminate]. cbn.
    destruct (match var_dtype var with
              | DT_FLOAT => _ | DT_BFLOAT16 => _ end); [|discriminate]. cbn.
    destruct (match _simulated_quantize_bits self with
              | Some _ => _ | None => _ end); [|discriminate]. cbn.
    intros [= <-] Hu Htarget.
    apply elem_of_cons in Hu as [-> | Hu]; [discriminate Htarget|].
    pose proof (dense_second_moment_writes _ _ _ _ _ _ _ _ Hsm Hu) as Hw.
    rewrite Htarget in Hw. list_not_mem Hw.
  - apply Heq.
Qed.

(** C10. A decay-type selector other than ["adam"] and ["pow"] makes the
    factory raise [ValueError], and no optimizer is built; with ["adam"]
    or ["pow"] it returns an optimizer whose decay rate is the Adam-style
    schedule of [optimizer_adafactor_beta2], respectively the power
    schedule of [optimizer_adafactor_memory_exponent]. *)
Theorem C10_factory_decay_type (hparams : HParams (P := P)) (lr : Z -> A) :
  let decay_type := optimizer_adafactor_decay_type hparams in
  (decay_type ≠ "adam" -> decay_type ≠ "pow" ->
   adafactor_optimizer_from_hparams hparams lr
   = inl (ValueError "unknown optimizer_adafactor_decay_type")) /\
  (decay_type = "adam" ->
   exists opt, adafactor_optimizer_from_hparams hparams lr = inr opt /\
               _decay_rate opt
               = adafactor_decay_rate_adam (optimizer_adafactor_beta2 hparams)) /\
  (decay_type = "pow" ->
   exists opt, adafactor_optimizer_from_hparams hparams lr = inr opt /\
               _decay_rate opt
               = adafactor_decay_rate_pow
                   (optimizer_adafactor_memory_exponent hparams)).
Proof.
  intros decay_type. unfold adafactor_optimizer_from_hparams.
  fold decay_type. split; [|split].
  - intros Hadam Hpow.
    apply String.eqb_neq in Hadam. apply String.eqb_neq in Hpow.
    rewrite Hadam, Hpow. reflexivity.
  - intros ->. cbn. eexists. split; reflexivity.
  - intros ->. cbn. eexists. split; reflexivity.
Qed.

End UpdateProperties.

Lemma C8_zero_momentum_witness :
  let self := quantizing_optimizer in
  let slots := _create_slots self [matrix_var] ∅ in
  ftruth (_beta1 self) = false /\
  _resource_apply_dense self 0 slots ones_2x2 matrix_var
  = resource_apply_dense_no_momentum self 0 slots ones_2x2 matrix_var.
Proof.
  intros self slots.
  assert (Hb : ftruth (_beta1 self) = false) by reflexivity.
  split; [exact Hb|].
  apply (C8_zero_momentum (H := F32_Numerics) self 0%Z slots ones_2x2
           matrix_var Hb).
Defined.

Lemma C10_factory_decay_type_witness :
  let hparams := example_hparams (P := f64) "exp" in
  let L64 := SF_Libm_one 53 1024 in
  let L32 := SF_Libm_one 24 128 in
  optimizer_adafactor_decay_type hparams ≠ "adam" /\
  optimizer_adafactor_decay_type hparams ≠ "pow" /\
  adafactor_optimizer_from_hparams (A := f32) hparams
    (fun _ => lit (P := f64) (1 # 100))
  = inl (ValueError "unknown optimizer_adafactor_decay_type").
Proof.
  intros hparams L64 L32.
  assert (Hadam : optimizer_adafactor_decay_type hparams ≠ "adam")
    by discriminate.
  assert (Hpow : optimizer_adafactor_decay_type hparams ≠ "pow")
    by discriminate.
  split; [exact Hadam|]. split; [exact Hpow|].
  apply (C10_factory_decay_type (H := F32_Numerics) hparams
           (fun _ => lit (P := f64) (1 # 100)));
    assumption.
Defined.

(** ** Registration and the update, composed *)

Section Registration.
Context {P A : Type} `{Numerics P A}.
Implicit Types (self : AdafactorOptimizer (P := P) (A := A)).
Implicit Types (slots : gmap (string * string) (tensor A)).
Implicit Types (var : variable A).

Lemma get_or_make_slot_keeps slots var val s' k t :
  slots !! k = Some t -> _get_or_make_slot slots var val s' !! k = Some t.
Proof.
  intros Hk. destruct k as [s n]. rewrite get_or_make_slot_lookup, Hk.
  destruct (_ && _); reflexivity.
Qed.

Lemma get_or_make_slot_present slots var val s' :
  is_Some (_get_or_make_slot slots var val s' !! (s', var_name var)).
Proof.
  rewrite get_or_make_slot_lookup, !String.eqb_refl. cbn. eexists. reflexivity.
Qed.

Lemma get_or_make_slot_fixed slots var val s' :
  is_Some (slots !! (s', var_name var)) ->
  _get_or_make_slot slots var val s' = slots.
Proof.
  intros [t Ht]. unfold _get_or_make_slot. rewrite Ht. reflexivity.
Qed.

Lemma create_slots_var_keeps self slots var k t :
  slots !! k = Some t -> create_slots_var self slots var !! k = Some t.
Proof.
  intros Hk. unfold create_slots_var, _zeros_slot. cbv zeta.
  destruct (ftruth (_beta1 self));
    destruct (_should_use_factored_second_moment_estimate self _);
    repeat apply get_or_make_slot_keeps; exact Hk.
Qed.

Lemma is_Some_keeps slots slots' k :
  (forall t, slots !! k = Some t -> slots' !! k = Some t) ->
  is_Some (slots !! k) -> is_Some (slots' !! k).
Proof. intros Hk [t Ht]. exists t. apply Hk, Ht. Qed.

Lemma create_slots_var_has_slots self slots var :
  has_slots self (create_slots_var self slots var) var.
Proof.
  unfold has_slots, create_slots_var, _zeros_slot. cbv zeta.
  destruct (ftruth (_beta1 self));
    destruct (_should_use_factored_second_moment_estimate self _);
    repeat split; try discriminate; intros;
    repeat first
      [ apply get_or_make_slot_present
      | eapply is_Some_keeps;
        [intros ?; apply get_or_make_slot_keeps|] ].
Qed.

Lemma has_slots_keeps self slots slots' var :
  (forall k t, slots !! k = Some t -> slots' !! k = Some t) ->
  has_slots self slots var -> has_slots self slots' var.
Proof.
  intros Hk [Hm Hv]. split.
  - intros Hb. eapply is_Some_keeps; [apply Hk|]. apply Hm, Hb.
  - destruct (_should_use_factored_second_moment_estimate self _).
    + destruct Hv as [Hvr Hvc].
      split; (eapply is_Some_keeps; [apply Hk|]); assumption.
    + eapply is_Some_keeps; [apply Hk|]. exact Hv.
Qed.

Lemma create_slots_var_fixed self slots var :
  has_slots self slots var -> create_slots_var self slots var = slots.
Proof.
  intros [Hm Hv]. unfold create_slots_var, _zeros_slot. cbv zeta.
  destruct (ftruth (_beta1 self));
    [rewrite (get_or_make_slot_fixed _ _ _ "m") by (apply Hm; reflexivity)|];
    destruct (_should_use_factored_second_moment_estimate self _);
    try (destruct Hv as [Hvr Hvc];
         rewrite (get_or_make_slot_fixed _ _ _ "vr") by exact Hvr;
         apply get_or_make_slot_fixed; exact Hvc);
    apply get_or_make_slot_fixed; exact Hv.
Qed.

Lemma create_slots_keeps self (var_list : list (variable A)) slots k t :
  slots !! k = Some t -> _create_slots self var_list slots !! k = Some t.
Proof.
  unfold _create_slots. revert slots.
  induction var_list as [|v var_list IH]; intros slots Hk; simpl;
    [exact Hk|].
  apply IH, create_slots_var_keeps, Hk.
Qed.

(** After registration, from any slot dictionary, every variable of the
    list has the slots its update reads. *)
Lemma create_slots_has_slots self (var_list : list (variable A)) slots var :
  var ∈ var_list -> has_slots self (_create_slots self var_list slots) var.
Proof.
  unfold _create_slots. revert slots.
  induction var_list as [|v var_list IH]; intros slots Hin.
  - apply elem_of_nil in Hin. destruct Hin.
  - apply elem_of_cons in Hin as [-> | Hin]; simpl; [|apply IH, Hin].
    apply (has_slots_keeps self (create_slots_var self slots v)).
    + intros k t. apply (create_slots_keeps self var_list).
    + apply create_slots_var_has_slots.
Qed.

(** X1. Registration never resets state: a slot that exists keeps its value
    through [_create_slots], whatever variables are registered, and
    registering the same variables again changes nothing. *)
Theorem create_slots_idempotent self (var_list : list (variable A)) slots :
  (forall k t, slots !! k = Some t ->
               _create_slots self var_list slots !! k = Some t) /\
  _create_slots self var_list (_create_slots self var_list slots)
  = _create_slots self var_list slots.
Proof.
  split; [intros k t; apply create_slots_keeps|].
  set (registered := _create_slots self var_list slots).
  assert (Hall : forall var, var ∈ var_list -> has_slots self registered var)
    by (intros var Hin; apply create_slots_has_slots, Hin).
  clearbody registered. unfold _create_slots.
  induction var_list as [|v var_list IH]; simpl; [reflexivity|].
  rewrite create_slots_var_fixed by (apply Hall, list_elem_of_here).
  apply IH. intros var Hin. apply Hall, list_elem_of_further, Hin.
Qed.

End Registration.

(** ** When the update raises, and what it touches *)

Section UpdateFootprint.
Context {P A : Type} `{Numerics P A}.
Implicit Types (self : AdafactorOptimizer (P := P) (A := A)).
Implicit Types (slots : gmap (string * string) (tensor A)).
Implicit Types (var : variable A).

Ltac solve_is_Some :=
  repeat match goal with
         | H : is_Some None |- _ => destruct H as [? H]; discriminate H
         | H : _ /\ _ |- _ => destruct H
         | H : true = true -> _ |- _ => specialize (H eq_refl)
         | H : ?x = ?x -> _ |- _ => specialize (H eq_refl)
         | |- is_Some (Some _) => eexists; reflexivity
         | |- _ /\ _ => split
         | |- _ -> _ => intro
         | H : false = true |- _ => discriminate H
         | H : DT_FLOAT = DT_BFLOAT16 |- _ => discriminate H
         end.

(** In the embedding the update returns assignments exactly when the
    variable has its slots and, if it is stored as bfloat16, a parameter
    encoding is configured and simulated quantization is not. *)
Lemma resource_apply_dense_is_Some self (t : Z) slots
    (grad : tensor A) var :
  is_Some (_resource_apply_dense self t slots grad var) <->
  has_slots self slots var /\
  (var_dtype var = DT_BFLOAT16 ->
   is_Some (_parameter_encoding self) /\
   simulated_quantize_bits_set self = false).
Proof.
  unfold _resource_apply_dense, dense_subtrahend, dense_old_val,
    dense_second_moment, dense_momentum, dense_write, has_slots, get_slot,
    simulated_quantize_bits_set.
  cbv zeta.
  destruct (var_dtype var);
    destruct (_parameter_encoding self);
    destruct (_simulated_quantize_bits self) as [bits|];
    try destruct (bits =? 0)%Z;
    destruct (_should_use_factored_second_moment_estimate self _);
    destruct (slots !! ("vr", var_name var));
    destruct (slots !! ("vc", var_name var));
    destruct (slots !! ("v", var_name var));
    destruct (ftruth (_beta1 self));
    destruct (slots !! ("m", var_name var));
    cbn; split; solve_is_Some; try assumption; try reflexivity;
    try congruence.
Qed.

(** X2. The update raises whenever a slot it reads is missing (the
    momentum slot if [beta1] is set, the row and column accumulators or
    the full accumulator), and whenever the variable is stored as
    bfloat16 and either no parameter encoding is configured or simulated
    quantization is. *)
Theorem resource_apply_dense_raises self (t : Z) slots
    (grad : tensor A) var :
  ~ has_slots self slots var \/
  (var_dtype var = DT_BFLOAT16 /\
   (_parameter_encoding self = None \/
    simulated_quantize_bits_set self = true)) ->
  _resource_apply_dense self t slots grad var = None.
Proof.
  intros Hbad.
  destruct (_resource_apply_dense self t slots grad var) as [updates|] eqn:Hrun;
    [|reflexivity].
  exfalso.
  assert (Hsome : is_Some (_resource_apply_dense self t slots grad var))
    by (rewrite Hrun; eexists; reflexivity).
  apply resource_apply_dense_is_Some in Hsome as [Hslots Hdtype].
  destruct Hbad as [Hmissing | [Hdt [Henc | Hbits]]].
  - apply Hmissing, Hslots.
  - destruct (Hdtype Hdt) as [[enc Hsome] _]. congruence.
  - destruct (Hdtype Hdt) as [_ Hunset]. congruence.
Qed.

(** X3. Registration and update compose. After [_create_slots] has run,
    from the empty slot dictionary, on variables of distinct names, the
    slots of each listed variable have the shapes its update expects; and
    the update of a listed variable with a gradient of the variable's
    shape does not raise, provided that a variable stored as bfloat16 has
    a parameter encoding and no simulated quantization, and that the
    number of simulated-quantization bits, if set, is in the documented
    range. *)
Theorem registered_update_succeeds self (t : Z)
    (var_list : list (variable A)) (grad : tensor A) var :
  NoDup (map var_name var_list) -> var ∈ var_list ->
  well_formed (var_value var) -> well_formed grad ->
  tshape grad = tshape (var_value var) ->
  (var_dtype var = DT_BFLOAT16 ->
   is_Some (_parameter_encoding self) /\
   simulated_quantize_bits_set self = false) ->
  (forall bits, _simulated_quantize_bits self = Some bits ->
                (0 <= bits <= 22)%Z) ->
  let slots := _create_slots self var_list ∅ in
  well_shaped self slots grad var /\
  is_Some (_resource_apply_dense self t slots grad var).
Proof.
  intros Hnd Hin Hvar Hgrad Hshape Hdtype Hrange slots. split.
  - split; [exact Hvar|]. split; [exact Hgrad|]. split; [exact Hshape|].
    intros slot_name acc z Hacc Hz. unfold slots in Hacc.
    rewrite (create_slots_expected self var_list var slot_name Hnd Hin) in Hacc.
    rewrite Hz in Hacc. injection Hacc as <-.
    split; [|reflexivity].
    unfold expected_slot in Hz.
    repeat match type of Hz with
           | (if ?c then _ else _) = _ => destruct c
           end;
      try discriminate Hz; injection Hz as <-;
      unfold well_formed, zeros; cbn [tdata tshape]; apply length_replicate.
  - apply resource_apply_dense_is_Some.
    split; [apply create_slots_has_slots, Hin | exact Hdtype].
Qed.

(** X4. The update of a variable reads no slot of another variable. *)
Theorem resource_apply_dense_reads_own_slots self (t : Z) slots slots'
    (grad : tensor A) var :
  (forall s, slots !! (s, var_name var) = slots' !! (s, var_name var)) ->
  _resource_apply_dense self t slots' grad var
  = _resource_apply_dense self t slots grad var.
Proof.
  intros Hagree.
  unfold _resource_apply_dense, dense_subtrahend, dense_second_moment,
    dense_momentum, get_slot.
  rewrite !Hagree. reflexivity.
Qed.

(** The assignments of an update: first the variable itself, then only
    slots ["vr"], ["vc"], ["v"] or ["m"] of that same variable. *)
Lemma resource_apply_dense_targets self (t : Z) slots (grad : tensor A) var
    (updates : list (assign A)) :
  _resource_apply_dense self t slots grad var = Some updates ->
  exists new_val rest,
    updates = Assign (TVar (var_name var)) new_val :: rest /\
    Forall (fun u => exists s, s ∈ ["vr"; "vc"; "v"; "m"] /\
                               assign_target u = TSlot s (var_name var))
           rest.
Proof.
  unfold _resource_apply_dense, dense_subtrahend, dense_old_val,
    dense_second_moment, dense_momentum, dense_write, get_slot.
  cbv zeta.
  destruct (var_dtype var);
    destruct (_parameter_encoding self);
    destruct (_simulated_quantize_bits self) as [bits|];
    try destruct (bits =? 0)%Z;
    destruct (_should_use_factored_second_moment_estimate self _);
    destruct (slots !! ("vr", var_name var));
    destruct (slots !! ("vc", var_name var));
    destruct (slots !! ("v", var_name var));
    destruct (ftruth (_beta1 self));
    destruct (slots !! ("m", var_name var));
    cbn; try discriminate;
    intros [= <-]; eexists _, _; (split; [reflexivity|]);
    repeat (apply Forall_cons; split;
            [eexists; split; [|reflexivity];
             repeat first [apply list_elem_of_here
                          | apply list_elem_of_further]|]);
    apply Forall_nil_2.
Qed.

Lemma run_slots_other (updates : list (assign A)) slots (name n s : string) :
  Forall (fun u => match assign_target u with
                   | TVar _ => True
                   | TSlot _ name' => name' = name
                   end) updates ->
  n ≠ name ->
  run_slots updates slots !! (s, n) = slots !! (s, n).
Proof.
  intros Hu Hn. unfold run_slots. revert slots.
  induction Hu as [|u updates Hhead _ IH]; intros slots; simpl;
    [reflexivity|].
  rewrite IH. destruct (assign_target u) as [|s' name']; [reflexivity|].
  subst name'. apply lookup_insert_ne. congruence.
Qed.

Lemma run_var_other (updates : list (assign A)) (name : string) other :
  Forall (fun u => match assign_target u with
                   | TVar name' => name' = name
                   | TSlot _ _ => True
                   end) updates ->
  var_name other ≠ name ->
  run_var updates other = other.
Proof.
  intros Hu Hn. unfold run_var.
  induction Hu as [|u updates Hhead _ IH]; simpl; [reflexivity|].
  destruct (assign_target u) as [name'|]; [|exact IH].
  subst name'. destruct (String.eqb_spec name (var_name other)) as [He|_];
    [congruence | exact IH].
Qed.

(** X5. The assignments of an update are one to the variable itself, first,
    then only to slots ["vr"], ["vc"], ["v"] or ["m"] of that variable; so
    running them leaves every other variable and every slot of another
    variable as it was. *)
Theorem update_leaves_other_variables self (t : Z) slots (grad : tensor A)
    var (updates : list (assign A)) (other : variable A) :
  _resource_apply_dense self t slots grad var = Some updates ->
  var_name other ≠ var_name var ->
  (exists new_val rest,
      updates = Assign (TVar (var_name var)) new_val :: rest /\
      Forall (fun u => exists s, s ∈ ["vr"; "vc"; "v"; "m"] /\
                                 assign_target u = TSlot s (var_name var))
             rest) /\
  run_var updates other = other /\
  forall s, run_slots updates slots !! (s, var_name other)
            = slots !! (s, var_name other).
Proof.
  intros Hrun Hother.
  pose proof (resource_apply_dense_targets _ _ _ _ _ _ Hrun) as Htargets.
  split; [exact Htargets|].
  destruct Htargets as (new_val & rest & -> & Hrest).
  split.
  - apply (run_var_other _ (var_name var)); [|exact Hother].
    apply Forall_cons. split; [reflexivity|].
    eapply Forall_impl; [exact Hrest|].
    intros u (s & _ & ->). exact I.
  - intros s. apply (run_slots_other _ _ (var_name var)); [|exact Hother].
    apply Forall_cons. split; [exact I|].
    eapply Forall_impl; [exact Hrest|].
    intros u (s' & _ & ->). reflexivity.
Qed.

End UpdateFootprint.

(** ** The Adam-style decay schedule and the default learning rate *)

Lemma R_decay_rate_adam (beta2 : R) (t : Z) :
  adafactor_decay_rate_adam (P := R) (A := R) beta2 t
  = (beta2 * (1 - Rpower beta2 (IZR t)) / (1 - Rpower beta2 (IZR t + 1)))%R.
Proof.
  unfold adafactor_decay_rate_adam. cbv zeta.
  rewrite R_of_int, !R_lit, Q2R_one. real_arith.
  replace (IZR t + 1 - 1)%R with (IZR t) by ring. reflexivity.
Qed.

Lemma Rpower_small_base (b x : R) :
  (0 < b < 1)%R -> (0 <= x)%R -> (0 < Rpower b x <= 1)%R.
Proof.
  intros Hb Hx. split; [apply exp_pos|].
  unfold Rpower.
  assert (Hln : (ln b < 0)%R)
    by (rewrite <- ln_1; apply ln_increasing; lra).
  destruct (Req_dec (x * ln b) 0) as [-> | Hne]; [rewrite exp_0; lra|].
  left. rewrite <- exp_0. apply exp_increasing. nra.
Qed.

(** X6. The Adam-style schedule with [0 < beta2 < 1]: at every step [t >= 0]
    the decay rate is [beta2 (1 - beta2^t) / (1 - beta2^(t+1))], it lies
    in [0, beta2), and at step 0 it is exactly 0, so that the first update
    forgets the initial value of the accumulators. *)
Theorem adam_schedule_bounds (beta2 : R) (t : Z) :
  (0 < beta2 < 1)%R -> (0 <= t)%Z ->
  let d := adafactor_decay_rate_adam (P := R) (A := R) beta2 t in
  d = (beta2 * (1 - Rpower beta2 (IZR t))
       / (1 - Rpower beta2 (IZR t + 1)))%R /\
  (0 <= d < beta2)%R /\
  adafactor_decay_rate_adam (P := R) (A := R) beta2 0 = 0%R.
Proof.
  intros Hb Ht d. subst d. rewrite !R_decay_rate_adam.
  split; [reflexivity|].
  assert (Hx : (0 <= IZR t)%R) by (apply IZR_le in Ht; exact Ht).
  pose proof (Rpower_small_base beta2 (IZR t) Hb Hx) as Ha.
  rewrite Rpower_plus, (Rpower_1 beta2) by lra.
  set (a := Rpower beta2 (IZR t)) in *.
  assert (Hden : (0 < 1 - a * beta2)%R) by nra.
  split.
  - split.
    + apply Rmult_le_pos; [nra|]. left. apply Rinv_0_lt_compat, Hden.
    + apply Rmult_lt_reg_r with (1 - a * beta2)%R; [exact Hden|].
      unfold Rdiv. rewrite Rmult_assoc, Rinv_l by lra.
      assert (Hpos : (0 < a * (1 - beta2))%R)
        by (apply Rmult_lt_0_compat; lra).
      nra.
  - rewrite Rpower_O by lra. unfold Rdiv. ring.
Qed.

Lemma adam_schedule_bounds_witness :
  let d := adafactor_decay_rate_adam (P := R) (A := R) (1 / 2)%R 3 in
  (0 <= d < 1 / 2)%R.
Proof.
  assert (Hb : (0 < 1 / 2 < 1)%R) by lra.
  assert (Ht : (0 <= 3)%Z) by lia.
  destruct (adam_schedule_bounds (1 / 2)%R 3%Z Hb Ht) as (_ & Hd & _).
  exact Hd.
Defined.

Lemma R_learning_rate_default (multiply_by_parameter_scale : bool) (t : Z) :
  _learning_rate_default (P := R) (A := R) multiply_by_parameter_scale t
  = (Rmin (1 / sqrt (IZR t + 1)) (1 / 100)
     * (if multiply_by_parameter_scale then 1 else 5 / 100))%R.
Proof.
  unfold _learning_rate_default, rsqrt, step_num, lit, of_int. real_arith.
  rewrite Q2R_inject_Z, !Q2R_one.
  replace (Q2R (1 # 100)) with (1 / 100)%R by (unfold Q2R; simpl; lra).
  replace (Q2R (5 # 100)) with (5 / 100)%R by (unfold Q2R; simpl; lra).
  destruct multiply_by_parameter_scale; cbn [negb]; lra.
Qed.

Lemma sqrt_10000 : sqrt 10000 = 100%R.
Proof.
  replace 10000%R with (100 * 100)%R by lra. apply sqrt_square. lra.
Qed.

(** X7. The default learning rate at step [t >= 0], scaled by the parameter
    scale: it is the constant 0.01 for the first 10000 steps and
    [1/sqrt(t+1)] from step 9999 on, always in (0, 0.01]; without the
    parameter scale it is that value times 0.05. *)
Theorem learning_rate_default_schedule (t : Z) :
  (0 <= t)%Z ->
  let lr := _learning_rate_default (P := R) (A := R) true t in
  ((t <= 9999)%Z -> lr = (1 / 100)%R) /\
  ((9999 <= t)%Z -> lr = (1 / sqrt (IZR t + 1))%R) /\
  (0 < lr <= 1 / 100)%R /\
  _learning_rate_default (P := R) (A := R) false t = (lr * (5 / 100))%R.
Proof.
  intros Ht lr. subst lr. rewrite !R_learning_rate_default.
  apply IZR_le in Ht.
  assert (Hs : (0 < sqrt (IZR t + 1))%R) by (apply sqrt_lt_R0; lra).
  assert (Hinv : (0 < 1 / sqrt (IZR t + 1))%R)
    by (apply Rdiv_lt_0_compat; lra).
  split; [|split; [|split]].
  - intros Hle. apply IZR_le in Hle.
    assert (Hsq : (sqrt (IZR t + 1) <= 100)%R)
      by (rewrite <- sqrt_10000; apply sqrt_le_1_alt; lra).
    rewrite Rmin_right; [lra|].
    apply Rmult_le_reg_r with (sqrt (IZR t + 1)); [exact Hs|].
    unfold Rdiv at 2. rewrite Rmult_assoc, Rinv_l by lra. lra.
  - intros Hge. apply IZR_le in Hge.
    assert (Hsq : (100 <= sqrt (IZR t + 1))%R)
      by (rewrite <- sqrt_10000; apply sqrt_le_1_alt; lra).
    rewrite Rmin_left; [lra|].
    apply Rmult_le_reg_r with (sqrt (IZR t + 1)); [exact Hs|].
    unfold Rdiv at 1. rewrite Rmult_assoc, Rinv_l by lra. lra.
  - rewrite Rmult_1_r. split.
    + apply Rmin_glb_lt; lra.
    + apply Rmin_r.
  - ring.
Qed.

Lemma learning_rate_default_schedule_witness :
  _learning_rate_default (P := R) (A := R) true 5000 = (1 / 100)%R.
Proof.
  assert (Ht : (0 <= 5000)%Z) by lia.
  destruct (learning_rate_default_schedule 5000%Z Ht) as (Hlow & _).
  apply Hlow. lia.
Defined.

(** ** The noise generator and its docstring *)

Lemma R_noise_from_step_num (t : Z) :
  noise_from_step_num (P := R) (A := R) t
  = frac (sum_upto 30 (fun i => frac (phi * 2 ^ i) * IZR (bit i (t + 1)))%R).
Proof.
  unfold noise_from_step_num, lit, of_int. real_arith.
  rewrite R_phi, R_floormod_one. f_equal.
  rewrite (fold_left_sum_upto
             (fun i => (R_floormod (phi * Q2R (inject_Z (2 ^ Z.of_nat i))) (Q2R 1)
                        * Q2R (inject_Z
                                 ((int32_add (to_int32 t) 1 / 2 ^ Z.of_nat i)
                                    mod 2)))%R)).
  rewrite Q2R_zero, Rplus_0_l.
  apply sum_upto_ext. intros i Hi.
  rewrite R_floormod_one, !Q2R_inject_Z, step_bit by lia.
  rewrite <- pow_IZR. reflexivity.
Qed.

Lemma frac_minus_IZR (x : R) (k : Z) : frac (x - IZR k) = frac x.
Proof.
  unfold frac.
  replace (x - IZR k)%R with (x + IZR (- k))%R by (rewrite opp_IZR; ring).
  rewrite Zfloor_addz, plus_IZR. ring.
Qed.

Lemma mod_pow2_succ (n : Z) (m : nat) :
  (n mod 2 ^ Z.of_nat (S m)
   = n mod 2 ^ Z.of_nat m + 2 ^ Z.of_nat m * bit m n)%Z.
Proof.
  unfold bit. rewrite Z.shiftr_div_pow2 by lia.
  rewrite Nat2Z.inj_succ, Z.pow_succ_r by lia.
  rewrite (Z.mul_comm 2). apply Z.rem_mul_r; lia.
Qed.

(** The weighted bit sum is [phi] times the low bits of [n], up to an
    integer. *)
Lemma bit_sum_phi (n : Z) (m : nat) :
  exists k : Z,
    sum_upto m (fun i => frac (phi * 2 ^ i) * IZR (bit i n))%R
    = (phi * IZR (n mod 2 ^ Z.of_nat m) - IZR k)%R.
Proof.
  induction m as [|m [k IH]].
  - exists 0%Z. simpl. rewrite Z.mod_1_r. lra.
  - exists (k + Zfloor (phi * 2 ^ m) * bit m n)%Z.
    cbn [sum_upto]. rewrite IH, mod_pow2_succ.
    rewrite !plus_IZR, !mult_IZR, <- pow_IZR. unfold frac. simpl IZR. ring.
Qed.

(** X8. In exact arithmetic the noise is what the docstring announces,
    [(phi * (step_num + 1)) mod 1], as long as [step_num + 1 < 2^30];
    in general only the thirty low bits of [step_num + 1] count, so the
    sequence repeats with period [2^30]. *)
Theorem noise_is_phi_times_step (t : Z) :
  noise_from_step_num (P := R) (A := R) t
  = frac (phi * IZR ((t + 1) mod 2 ^ 30)) /\
  ((0 <= t < 2 ^ 30 - 1)%Z ->
   noise_from_step_num (P := R) (A := R) t = frac (phi * IZR (t + 1))) /\
  noise_from_step_num (P := R) (A := R) (t + 2 ^ 30)
  = noise_from_step_num (P := R) (A := R) t.
Proof.
  assert (Hlow : forall u,
             noise_from_step_num (P := R) (A := R) u
             = frac (phi * IZR ((u + 1) mod 2 ^ 30))).
  { intros u. rewrite R_noise_from_step_num.
    destruct (bit_sum_phi (u + 1) 30) as [k ->].
    rewrite frac_minus_IZR. reflexivity. }
  split; [apply Hlow|]. split.
  - intros Ht. rewrite Hlow, Z.mod_small by lia. reflexivity.
  - rewrite !Hlow. do 3 f_equal.
    replace (t + 2 ^ 30 + 1)%Z with (t + 1 + 1 * 2 ^ 30)%Z by ring.
    apply Z_mod_plus_full.
Qed.

Lemma noise_is_phi_times_step_witness :
  noise_from_step_num (P := R) (A := R) 41 = frac (phi * IZR (41 + 1)).
Proof.
  destruct (noise_is_phi_times_step 41%Z) as (_ & Hsmall & _).
  apply Hsmall. lia.
Defined.

(** ** Simulated quantization *)

Lemma concat_chunks_aux {X} (fuel n : nat) (l : list X) :
  (0 < n)%nat -> (length l <= fuel)%nat -> concat (chunks_aux fuel n l) = l.
Proof.
  intros Hn. revert l.
  induction fuel as [|fuel IH]; intros l Hl.
  - destruct l; [reflexivity | simpl in Hl; lia].
  - destruct l as [|v l]; [reflexivity|].
    cbn [chunks_aux concat]. rewrite IH.
    + apply take_drop.
    + rewrite length_drop. simpl in *. lia.
Qed.

(** Cutting a list into rows of a positive length loses nothing. *)
Lemma concat_chunks {X} (n : nat) (l : list X) :
  (0 < n)%nat -> concat (chunks n l) = l.
Proof. intros Hn. unfold chunks. apply concat_chunks_aux; [exact Hn | lia]. Qed.

Lemma Forall2_concat_rows {X Y} (g : list X -> X -> Y) (Rel : X -> Y -> Prop)
    (rows : list (list X)) :
  (forall row v, row ∈ rows -> v ∈ row -> Rel v (g row v)) ->
  Forall2 Rel (concat rows) (concat (map (fun row => map (g row) row) rows)).
Proof.
  induction rows as [|row rows IH]; intros Hrel; simpl; [constructor|].
  apply Forall2_app.
  - apply Forall2_fmap_r, Forall_Forall2_diag, Forall_forall.
    intros v Hv. apply Hrel; [apply list_elem_of_here | exact Hv].
  - apply IH. intros row' v Hrow Hv.
    apply Hrel; [apply list_elem_of_further, Hrow | exact Hv].
Qed.

Lemma R_fold_max_ge_init (l : list R) (a : R) : (a <= fold_left Rmax l a)%R.
Proof.
  revert a. induction l as [|v l IH]; intros a; simpl; [lra|].
  eapply Rle_trans; [apply (Rmax_l a v) | apply IH].
Qed.

Lemma R_fold_max_ge_elem (l : list R) (a v : R) :
  v ∈ l -> (v <= fold_left Rmax l a)%R.
Proof.
  revert a. induction l as [|u l IH]; intros a Hv.
  - apply elem_of_nil in Hv. destruct Hv.
  - apply elem_of_cons in Hv as [-> | Hv]; simpl.
    + eapply Rle_trans; [apply (Rmax_r a u) | apply R_fold_max_ge_init].
    + apply IH, Hv.
Qed.

(** The largest magnitude of a row bounds the magnitude of its elements. *)
Lemma R_reduce_max_abs (row : list R) (v : R) :
  v ∈ row -> (Rabs v <= reduce_max_list (map Rabs row))%R.
Proof.
  intros Hv. unfold reduce_max_list.
  destruct row as [|u row]; [apply elem_of_nil in Hv; destruct Hv|].
  cbn [map]. real_arith.
  apply elem_of_cons in Hv as [-> | Hv].
  - apply R_fold_max_ge_init.
  - apply R_fold_max_ge_elem. apply list_elem_of_fmap. exists v. auto.
Qed.

(** Every element of a row of rank-2-or-more input lands on the row's
    grid: an integer of the signed range times the row's step, less than
    one step from where it was. *)
Lemma R_simulated_quantize_grid (x : tensor R) (bits : Z) (noise : R) :
  (2 <= length (tshape x))%nat -> (1 < dim_last (tshape x))%nat ->
  (2 <= bits)%Z -> (0 <= noise < 1)%R ->
  tshape (simulated_quantize (P := R) x bits noise) = tshape x /\
  Forall2
    (fun v w =>
       exists (row : list R) (k : Z),
         row ∈ chunks (dim_last (tshape x)) (tdata x) /\ v ∈ row /\
         let scale := ((reduce_max_list (map Rabs row)
                        + Q2R (1 # 1000000000))
                       / IZR (2 ^ (bits - 1) - 1))%R in
         (0 < scale)%R /\ w = (IZR k * scale)%R /\
         (- (2 ^ (bits - 1) - 1) <= k <= 2 ^ (bits - 1) - 1)%Z /\
         (scale * (noise - 1) < w - v <= scale * noise)%R)
    (tdata x) (tdata (simulated_quantize (P := R) x bits noise)).
Proof.
  intros Hrank Hlast Hbits Hnoise.
  unfold simulated_quantize. cbv zeta.
  apply Nat.leb_le in Hrank. apply Nat.ltb_lt in Hlast.
  rewrite Hrank, Hlast. cbn [andb negb].
  replace (1 <=? bits)%Z with true by (symmetry; apply Z.leb_le; lia).
  cbn [tshape tdata]. split; [reflexivity|].
  apply Nat.ltb_lt in Hlast.
  rewrite <- (concat_chunks (dim_last (tshape x)) (tdata x)) at 1 by lia.
  apply (Forall2_concat_rows
           (fun row v =>
              fmul (ffloor (fadd (fdiv v
                 (fdiv (fadd (reduce_max_list (map fabs row))
                             (lit (P := R) (1 # 1000000000)))
                       (of_int (P := R) (2 ^ (bits - 1) - 1)))) noise))
                 (fdiv (fadd (reduce_max_list (map fabs row))
                             (lit (P := R) (1 # 1000000000)))
                       (of_int (P := R) (2 ^ (bits - 1) - 1))))).
  intros row v Hrow Hv.
  cbv beta. unfold lit, of_int. real_arith. rewrite !Q2R_inject_Z.
  set (M := (2 ^ (bits - 1) - 1)%Z).
  assert (HM : (1 <= M)%Z).
  { unfold M. assert (2 ^ 1 <= 2 ^ (bits - 1))%Z
      by (apply Z.pow_le_mono_r; lia). lia. }
  apply IZR_le in HM.
  pose proof (R_reduce_max_abs row v Hv) as Hmax.
  assert (He : (0 < Q2R (1 # 1000000000))%R) by (unfold Q2R; simpl; lra).
  pose proof (Rabs_pos v) as Hv0.
  set (mx := reduce_max_list (map Rabs row)) in *.
  set (s := ((mx + Q2R (1 # 1000000000)) / IZR M)%R).
  assert (Hs : (0 < s)%R) by (apply Rdiv_lt_0_compat; lra).
  assert (HsM : (s * IZR M = mx + Q2R (1 # 1000000000))%R)
    by (unfold s; field; lra).
  pose proof (Zfloor_bound (v / s + noise)) as [Hlo Hhi].
  unfold R_floor. set (k := Zfloor (v / s + noise)) in *.
  assert (Hvs : (v / s * s = v)%R) by (field; lra).
  assert (Hq : (- IZR M < v / s < IZR M)%R).
  { pose proof (Rabs_def2 v (s * IZR M)) as Habs.
    destruct Habs as [Hlt Hgt]; [lra|].
    split.
    - apply Rmult_lt_reg_r with s; [exact Hs|]. nra.
    - apply Rmult_lt_reg_r with s; [exact Hs|]. nra. }
  exists row, k. split; [exact Hrow|]. split; [exact Hv|].
  fold s. split; [exact Hs|]. split; [reflexivity|]. split.
  - split.
    + apply Zfloor_lub. rewrite opp_IZR. lra.
    + apply Z.lt_succ_r, lt_IZR. rewrite succ_IZR. lra.
  - assert (H1 : (IZR k * s <= (v / s + noise) * s)%R)
      by (apply Rmult_le_compat_r; lra).
    assert (H2 : ((v / s + noise) * s < (IZR k + 1) * s)%R)
      by (apply Rmult_lt_compat_r; lra).
    replace ((v / s + noise) * s)%R with (v + noise * s)%R in H1, H2
      by (field; lra).
    fold mx. fold s. split; lra.
Qed.

(** X9. Simulated quantization to [bits >= 2] bits with noise in [0, 1), in
    exact arithmetic, on a tensor of rank at least 2 and last dimension
    above 1: the shape is kept, and every element [v] of a row becomes
    [k * scale] for an integer [k] with [|k| <= 2^(bits-1) - 1], where
    [scale = (max |row| + 1e-9) / (2^(bits-1) - 1) > 0] is the row's step,
    with [scale * (noise - 1) < k * scale - v <= scale * noise]: the
    result is a signed [bits]-bit integer times the step and is less than
    one step away from the input. *)
Theorem simulated_quantize_grid (x : tensor R) (bits : Z) (noise : R) :
  (2 <= length (tshape x))%nat -> (1 < dim_last (tshape x))%nat ->
  (2 <= bits)%Z -> (0 <= noise < 1)%R ->
  tshape (simulated_quantize (P := R) x bits noise) = tshape x /\
  Forall2
    (fun v w =>
       exists (row : list R) (k : Z),
         row ∈ chunks (dim_last (tshape x)) (tdata x) /\ v ∈ row /\
         let scale := ((reduce_max_list (map Rabs row)
                        + Q2R (1 # 1000000000))
                       / IZR (2 ^ (bits - 1) - 1))%R in
         (0 < scale)%R /\ w = (IZR k * scale)%R /\
         (- (2 ^ (bits - 1) - 1) <= k <= 2 ^ (bits - 1) - 1)%Z /\
         (scale * (noise - 1) < w - v <= scale * noise)%R)
    (tdata x) (tdata (simulated_quantize (P := R) x bits noise)).
Proof. apply R_simulated_quantize_grid. Qed.

Lemma simulated_quantize_grid_witness :
  tshape (simulated_quantize (P := R)
            (Tensor [2; 2] [1%R; (-2)%R; 3%R; 4%R]) 8 (1 / 4)%R)
  = [2; 2].
Proof.
  assert (Hrank : (2 <= length [2; 2])%nat) by (simpl; lia).
  assert (Hlast : (1 < dim_last [2; 2])%nat) by (cbn; lia).
  assert (Hbits : (2 <= 8)%Z) by lia.
  assert (Hnoise : (0 <= 1 / 4 < 1)%R) by lra.
  destruct (simulated_quantize_grid
              (Tensor [2; 2] [1%R; (-2)%R; 3%R; 4%R]) 8%Z (1 / 4)%R
              Hrank Hlast Hbits Hnoise) as [Hshape _].
  exact Hshape.
Defined.

(** ** The quantized write-back *)

Lemma R_fold_max_in (l : list R) (a : R) :
  fold_left Rmax l a = a \/ fold_left Rmax l a ∈ l.
Proof.
  revert a. induction l as [|v l IH]; intros a; simpl; [left; reflexivity|].
  destruct (IH (Rmax a v)) as [Heq | Hin].
  - rewrite Heq. unfold Rmax. destruct (Rle_dec a v);
      [right; apply list_elem_of_here | left; reflexivity].
  - right. apply list_elem_of_further, Hin.
Qed.

(** The largest magnitude of a non-empty row is the magnitude of one of
    its elements. *)
Lemma R_reduce_max_abs_attained (row : list R) :
  row <> [] ->
  exists u, u ∈ row /\ Rabs u = reduce_max_list (map Rabs row).
Proof.
  intros Hne. destruct row as [|v row]; [congruence|].
  unfold reduce_max_list. cbn [map]. real_arith.
  destruct (R_fold_max_in (map Rabs row) (Rabs v)) as [Heq | Hin].
  - exists v. split; [apply list_elem_of_here | symmetry; exact Heq].
  - apply list_elem_of_fmap in Hin as (u & Hu & Hin).
    exists u. split; [apply list_elem_of_further, Hin | symmetry; exact Hu].
Qed.

Lemma chunks_aux_nonempty {X} (fuel n : nat) (l : list X) (row : list X) :
  (0 < n)%nat -> row ∈ chunks_aux fuel n l -> row <> [].
Proof.
  intros Hn. revert l. induction fuel as [|fuel IH]; intros l Hrow.
  - apply elem_of_nil in Hrow. destruct Hrow.
  - destruct l as [|v l]; [apply elem_of_nil in Hrow; destruct Hrow|].
    cbn [chunks_aux] in Hrow. apply elem_of_cons in Hrow as [-> | Hrow].
    + destruct n; [lia | discriminate].
    + eapply IH, Hrow.
Qed.

(** C7, as amended. With simulated quantization configured ([bits] set
    and nonzero) and [subtrahend] the one the update arrived at: for a
    variable stored as float32 the value assigned to it is
    [simulated_quantize(var - subtrahend, bits, noise)], where [var] is
    the stored value, which for such a variable is [old_val], so that
    [var - subtrahend] is the [new_val] computed just before; for a
    variable stored as bfloat16 the subtraction of the float32
    [subtrahend] from [var] raises, and nothing is assigned. On a tensor
    of rank below 2 or with last dimension at most 1, [simulated_quantize]
    returns its input. On a tensor of rank at least 2 with last dimension
    above 1, in exact arithmetic, with [b >= 2] bits and noise in [0, 1),
    every element [v] of a row becomes [k * scale], where [scale] is
    [(m + 1e-9) / (2^(b-1) - 1)], [m] is the largest magnitude of the row,
    and [k] is the integer with [k <= v / scale + noise < k + 1]: rescaled
    to the range [2^(b-1) - 1], noise added, floored, rescaled back. *)
Theorem C7_simulated_quantization {P A : Type} `{Numerics P A}
    (self : AdafactorOptimizer (P := P) (A := A)) (t : Z)
    (slots : gmap (string * string) (tensor A)) (grad : tensor A)
    (var : variable A) (bits : Z) (old_val subtrahend0 subtrahend : tensor A)
    (updates0 rest : list (assign A)) :
  _simulated_quantize_bits self = Some bits -> bits ≠ 0%Z ->
  dense_subtrahend self t slots grad var
  = Some (old_val, subtrahend0, updates0) ->
  dense_momentum self slots var subtrahend0 updates0
  = Some (subtrahend, rest) ->
  (var_dtype var = DT_FLOAT ->
   old_val = var_value var /\
   _resource_apply_dense self t slots grad var
   = Some (Assign (TVar (var_name var))
             (simulated_quantize (P := P)
                (tzip fsub (var_value var) subtrahend) bits
                (_quantization_noise self t)) :: rest)) /\
  (var_dtype var = DT_BFLOAT16 ->
   _resource_apply_dense self t slots grad var = None) /\
  (forall (x : tensor A) (b : Z) (noise : A),
      (length (tshape x) < 2)%nat \/ (dim_last (tshape x) <= 1)%nat ->
      simulated_quantize (P := P) x b noise = x) /\
  (forall (x : tensor R) (b : Z) (noise : R),
      (2 <= length (tshape x))%nat -> (1 < dim_last (tshape x))%nat ->
      (2 <= b)%Z -> (0 <= noise < 1)%R ->
      tshape (simulated_quantize (P := R) x b noise) = tshape x /\
      Forall2
        (fun v w =>
           exists (row : list R) (m : R) (k : Z),
             row ∈ chunks (dim_last (tshape x)) (tdata x) /\ v ∈ row /\
             (forall u, u ∈ row -> (Rabs u <= m)%R) /\
             (exists u, u ∈ row /\ Rabs u = m) /\
             let scale :=
               ((m + 1 / 1000000000) / (2 ^ Z.to_nat (b - 1) - 1))%R in
             (IZR k <= v / scale + noise < IZR k + 1)%R /\
             w = (IZR k * scale)%R)
        (tdata x) (tdata (simulated_quantize (P := R) x b noise))).
Proof.
  intros Hbits Hnz Hsub Hmom.
  assert (Hrun : _resource_apply_dense self t slots grad var
                 = dense_write self t var old_val subtrahend rest).
  { unfold _resource_apply_dense. rewrite Hsub. cbn. rewrite Hmom.
    reflexivity. }
  apply Z.eqb_neq in Hnz.
  split; [|split; [|split]].
  - intros Hdt. split.
    + unfold dense_subtrahend, dense_old_val in Hsub. rewrite Hdt in Hsub.
      cbn in Hsub.
      destruct (dense_second_moment self slots var grad _) as [[ups x]|];
        [|discriminate Hsub].
      cbn in Hsub. injection Hsub as <- _ _. reflexivity.
    + rewrite Hrun. unfold dense_write. rewrite Hdt, Hbits, Hnz.
      reflexivity.
  - intros Hdt. rewrite Hrun. unfold dense_write. rewrite Hdt, Hbits, Hnz.
    destruct (_parameter_encoding self); reflexivity.
  - intros x b noise Hsmall. unfold simulated_quantize.
    destruct Hsmall as [Hrank | Hlast].
    + apply Nat.leb_gt in Hrank. rewrite Hrank. reflexivity.
    + apply Nat.ltb_ge in Hlast. rewrite Hlast, andb_false_r. reflexivity.
  - intros x b noise Hrank Hlast Hb Hnoise.
    destruct (R_simulated_quantize_grid x b noise Hrank Hlast Hb Hnoise)
      as [Hshape Hgrid].
    split; [exact Hshape|].
    eapply Forall2_impl; [exact Hgrid|].
    intros v w (row & k & Hrow & Hv & Hscale & Hw & _ & Hnear).
    assert (Hne : row <> [])
      by (eapply (chunks_aux_nonempty _ (dim_last (tshape x))); [lia|];
          exact Hrow).
    exists row, (reduce_max_list (map Rabs row)), k.
    split; [exact Hrow|]. split; [exact Hv|].
    split; [intros u Hu; apply R_reduce_max_abs, Hu|].
    split; [apply R_reduce_max_abs_attained, Hne|].
    cbv zeta in Hscale, Hw, Hnear |- *.
    replace ((2 ^ Z.to_nat (b - 1) - 1)%R) with (IZR (2 ^ (b - 1) - 1)).
    2:{ rewrite minus_IZR. f_equal.
        rewrite <- (Z2Nat.id (b - 1)) at 1 by lia.
        rewrite <- pow_IZR. reflexivity. }
    replace (1 / 1000000000)%R with (Q2R (1 # 1000000000))
      by (unfold Q2R; simpl; lra).
    set (scale := ((reduce_max_list (map Rabs row) + Q2R (1 # 1000000000))
                   / IZR (2 ^ (b - 1) - 1))%R) in *.
    split; [|exact Hw].
    assert (Hvs : (v / scale * scale = v)%R) by (field; lra).
    rewrite Hw in Hnear. split.
    + apply Rmult_le_reg_r with scale; [exact Hscale|]. nra.
    + apply Rmult_lt_reg_r with scale; [exact Hscale|]. nra.
Qed.

Lemma C7_simulated_quantization_witness :
  let self := quantizing_optimizer in
  let var := matrix_var in
  let slots := _create_slots self [var] ∅ in
  exists old_val subtrahend updates0,
    _simulated_quantize_bits self = Some 8%Z /\ 8%Z ≠ 0%Z /\
    dense_subtrahend self 0 slots ones_2x2 var
    = Some (old_val, subtrahend, updates0) /\
    dense_momentum self slots var subtrahend updates0
    = Some (subtrahend, updates0) /\
    old_val = var_value var /\
    _resource_apply_dense self 0 slots ones_2x2 var
    = Some (Assign (TVar "w")
              (simulated_quantize (P := f64)
                 (tzip fsub (var_value var) subtrahend)
                 8 (_quantization_noise self 0)) :: updates0).
Proof.
  intros self var slots.
  destruct (dense_subtrahend self 0 slots ones_2x2 var)
    as [[[old_val subtrahend] updates0]|] eqn:Hsub;
    [|vm_compute in Hsub; discriminate Hsub].
  assert (Hbits : _simulated_quantize_bits self = Some 8%Z) by reflexivity.
  assert (Hnz : 8%Z ≠ 0%Z) by discriminate.
  assert (Hmom : dense_momentum self slots var subtrahend updates0
                 = Some (subtrahend, updates0)) by reflexivity.
  assert (Hdt : var_dtype var = DT_FLOAT) by reflexivity.
  exists old_val, subtrahend, updates0.
  destruct (C7_simulated_quantization (H := F32_Numerics) self 0%Z slots
              ones_2x2 var 8%Z old_val subtrahend subtrahend updates0 updates0
              Hbits Hnz Hsub Hmom) as [Hfloat _].
  destruct (Hfloat Hdt) as [Hold Hrun].
  repeat split; assumption.
Defined.

(** C7, as stated, fails for a variable stored as bfloat16: with the
    encoding configured and the slots of the variable in place, the
    update without simulated quantization goes through, and the update
    with 8 bits of it raises, so that no value is written back. *)
Lemma C7_counterexample :
  let slots := _create_slots (encoding_optimizer (Some 8%Z))
                 [bfloat16_matrix_var] ∅ in
  is_Some (_resource_apply_dense (encoding_optimizer None) 0 slots ones_2x2
             bfloat16_matrix_var) /\
  _resource_apply_dense (encoding_optimizer (Some 8%Z)) 0 slots ones_2x2
    bfloat16_matrix_var = None /\
  ~ writes_back_quantized (encoding_optimizer (Some 8%Z)) 0 slots ones_2x2
      bfloat16_matrix_var.
Proof.
  intros slots.
  assert (Hnone : _resource_apply_dense (encoding_optimizer (Some 8%Z)) 0
                    slots ones_2x2 bfloat16_matrix_var = None)
    by (vm_compute; reflexivity).
  split; [|split; [exact Hnone|]].
  - destruct (_resource_apply_dense (encoding_optimizer None) 0 slots
                ones_2x2 bfloat16_matrix_var) as [updates|] eqn:Hrun;
      [eexists; reflexivity | vm_compute in Hrun; discriminate Hrun].
  - intros Hclaim.
    destruct (Hclaim 8%Z eq_refl) as (subtrahend & rest & Hrun);
      [discriminate|].
    rewrite Hnone in Hrun. discriminate Hrun.
Qed.

(** ** Simulated quantization to one bit, in float32 *)

Lemma digits2_pos_bound (m : positive) :
  (Zpos m < 2 ^ Zpos (digits2_pos m))%Z.
Proof.
  induction m as [m IH | m IH |]; cbn [digits2_pos].
  - rewrite Pos2Z.inj_succ, Z.pow_succ_r by lia. lia.
  - rewrite Pos2Z.inj_succ, Z.pow_succ_r by lia. lia.
  - reflexivity.
Qed.

(** A valid float32 below 1 and not negative is floored to zero. *)
Lemma SF_floor_below_one (m : positive) (e : Z) :
  valid_binary 24 128 (S754_finite false m e) = true ->
  SFltb (S754_finite false m e) (S754_finite false 8388608 (-23)) = true ->
  SF_floor 24 128 (S754_finite false m e) = S754_zero false.
Proof.
  intros Hvalid Hlt.
  unfold valid_binary, bounded, canonical_mantissa, fexp, emin in Hvalid.
  apply andb_prop in Hvalid as [Hcanon _]. apply Z.eqb_eq in Hcanon.
  pose proof (digits2_pos_bound m) as Hm.
  assert (Hd : (Zpos (digits2_pos m) <= 24)%Z) by lia.
  assert (Hm24 : (Zpos m < 2 ^ 24)%Z).
  { eapply Z.lt_le_trans; [exact Hm|]. apply Z.pow_le_mono_r; lia. }
  unfold SFltb, SFcompare in Hlt.
  assert (He : (e < -23 \/ (e = -23 /\ Zpos m < 8388608))%Z).
  { destruct (Z.compare_spec e (-23)) as [-> | Hl | Hg]; try discriminate.
    - right. split; [reflexivity|].
      destruct (Pos.compare_cont Eq m 8388608) eqn:Hc; try discriminate.
      change (Pos.compare_cont Eq m 8388608) with (Pos.compare m 8388608) in Hc.
      rewrite Pos.compare_lt_iff in Hc. lia.
    - left. exact Hl. }
  unfold SF_floor.
  replace (0 <=? e)%Z with false by (symmetry; apply Z.leb_gt; lia).
  assert (Hq : Z.shiftr (Zpos m) (- e) = 0%Z).
  { rewrite Z.shiftr_div_pow2 by lia. apply Z.div_small. split; [lia|].
    destruct He as [He | [-> Hm23]].
    - eapply Z.lt_le_trans; [exact Hm24|]. apply Z.pow_le_mono_r; lia.
    - simpl. lia. }
  rewrite Hq. reflexivity.
Qed.

(** One element of the one-bit quantization: whatever the row maximum
    [mx] and the element [v], dividing by the scale [mx / 0] and
    multiplying back gives NaN. *)
Lemma one_bit_cell (mx v n : spec_float) :
  valid_binary 24 128 n = true ->
  SFltb n (S754_finite false 8388608 (-23)) = true ->
  SFltb n (S754_zero false) = false ->
  SFmul 24 128
    (SF_floor 24 128
       (SFadd 24 128 (SFdiv 24 128 v (SFdiv 24 128 mx (S754_zero false))) n))
    (SFdiv 24 128 mx (S754_zero false))
  = S754_nan.
Proof.
  intros Hvalid Hlt Hge.
  destruct n as [sn | sn | | sn mn en]; try discriminate Hlt.
  - destruct mx as [[|] | [|] | | [|] ? ?];
      destruct v as [[|] | [|] | | [|] ? ?];
      destruct sn; reflexivity.
  - destruct sn; [discriminate Hge | discriminate Hlt].
  - destruct sn; [discriminate Hge|].
    pose proof (SF_floor_below_one mn en Hvalid Hlt) as Hfloor.
    destruct mx as [[|] | [|] | | [|] ? ?];
      destruct v as [[|] | [|] | | [|] ? ?];
      cbn [SFdiv SFadd SFmul xorb]; try reflexivity;
      rewrite ?Hfloor; reflexivity.
Qed.

Lemma Forall_concat_rows {X Y} (g : list X -> X -> Y) (Q : Y -> Prop)
    (rows : list (list X)) :
  (forall row v, Q (g row v)) ->
  Forall Q (concat (map (fun row => map (g row) row) rows)).
Proof.
  intros HQ. apply Forall_concat, Forall_fmap, Forall_forall.
  intros row _. apply Forall_fmap, Forall_forall. intros v _. apply HQ.
Qed.

(** X10. With [num_bits = 1], the lower end of the range the docstring
    gives (an integer between 1 and 22), the
    integer range [2^0 - 1] is zero: on a float32 tensor of rank at least
    2 and last dimension above 1, and for any noise in [0, 1), every
    element of the result is NaN. *)
Theorem simulated_quantize_one_bit (x : tensor f32) (noise : f32) :
  (2 <= length (tshape x))%nat -> (1 < dim_last (tshape x))%nat ->
  valid_binary 24 128 (sf noise) = true ->
  fgt (of_Q 1) noise = true -> fgt noise (of_Q 0) = true \/ noise = of_Q 0 ->
  let y := simulated_quantize (P := f64) x 1 noise in
  length (tdata y) = length (tdata x) /\
  Forall (fun w => sf w = S754_nan) (tdata y).
Proof.
  intros Hrank Hlast Hvalid Hlt1 Hge0 y. subst y.
  assert (Hge : SFltb (sf noise) (S754_zero false) = false).
  { destruct Hge0 as [Hpos | ->]; [|reflexivity].
    cbn in Hpos. destruct noise as [[sn | sn | | sn mn en]];
      cbn in Hpos |- *; try discriminate Hpos; try reflexivity;
      (destruct sn; [discriminate Hpos | reflexivity]). }
  unfold simulated_quantize. cbv zeta.
  apply Nat.leb_le in Hrank. apply Nat.ltb_lt in Hlast.
  rewrite Hrank, Hlast. cbn [andb negb tshape tdata].
  apply Nat.ltb_lt in Hlast. split.
  - rewrite <- (concat_chunks (dim_last (tshape x)) (tdata x)) at 2 by lia.
    rewrite !length_concat. f_equal.
    rewrite map_map. apply map_ext. intros row. apply length_map.
  - apply (Forall_concat_rows
             (fun row v =>
                fmul (ffloor (fadd (fdiv v
                   (fdiv (fadd (reduce_max_list (map fabs row))
                               (lit (P := f64) (1 # 1000000000)))
                         (of_int (P := f64) (2 ^ (1 - 1) - 1)))) noise))
                   (fdiv (fadd (reduce_max_list (map fabs row))
                               (lit (P := f64) (1 # 1000000000)))
                         (of_int (P := f64) (2 ^ (1 - 1) - 1))))).
    intros row v. apply one_bit_cell; assumption.
Qed.

Lemma simulated_quantize_one_bit_witness :
  Forall (fun w => sf w = S754_nan)
         (tdata (simulated_quantize (P := f64) (var_value matrix_var) 1
                   (lit (P := f64) (1 # 4)))).
Proof.
  assert (Hrank : (2 <= length (tshape (var_value matrix_var)))%nat)
    by (simpl; lia).
  assert (Hlast : (1 < dim_last (tshape (var_value matrix_var)))%nat)
    by (cbn; lia).
  assert (Hvalid : valid_binary 24 128 (sf (lit (P := f64) (1 # 4) : f32))
                   = true) by reflexivity.
  assert (Hlt : fgt (of_Q 1) (lit (P := f64) (1 # 4) : f32) = true)
    by reflexivity.
  assert (Hge : fgt (lit (P := f64) (1 # 4) : f32) (of_Q 0) = true \/
                (lit (P := f64) (1 # 4) : f32) = of_Q 0)
    by (left; reflexivity).
  destruct (simulated_quantize_one_bit (var_value matrix_var)
              (lit (P := f64) (1 # 4)) Hrank Hlast Hvalid Hlt Hge)
    as [_ Hnan].
  exact Hnan.
Defined.

(** ** The direction of the update, in exact arithmetic *)

Lemma Rinv_nonneg (x : R) : (0 <= x)%R -> (0 <= / x)%R.
Proof.
  intros [Hx | <-]; [left; apply Rinv_0_lt_compat, Hx | rewrite Rinv_0; lra].
Qed.

Lemma R_rsqrt_nonneg (y : R) : (0 <= rsqrt y)%R.
Proof.
  unfold rsqrt. real_arith. rewrite Q2R_one. unfold Rdiv. rewrite Rmult_1_l.
  apply Rinv_nonneg, sqrt_pos.
Qed.

Lemma R_nth_nonneg (l : list R) (k : nat) :
  Forall (fun v => 0 <= v)%R l -> (0 <= nth k l (Q2R 0))%R.
Proof.
  intros Hl. rewrite nth_lookup. destruct (l !! k) as [v|] eqn:Hk; simpl.
  - eapply Forall_lookup_1 in Hl; [exact Hl | exact Hk].
  - rewrite Q2R_zero. lra.
Qed.

Lemma R_rsqrt_all_nonneg (l : list R) :
  Forall (fun v => 0 <= v)%R (map rsqrt l).
Proof. apply Forall_fmap, Forall_forall. intros v _. apply R_rsqrt_nonneg. Qed.

(** Every element of the normalized update [x] is the gradient element
    times a nonnegative factor. *)
Lemma R_second_moment_direction (self : AdafactorOptimizer (P := R) (A := R))
    (slots : gmap (string * string) (tensor R)) (var : variable R)
    (grad : tensor R) (d : R) (ups : list (assign R)) (x : tensor R) :
  dense_second_moment self slots var grad d = Some (ups, x) ->
  forall i g xi,
    tdata grad !! i = Some g -> tdata x !! i = Some xi ->
    exists c, (0 <= c)%R /\ xi = (g * c)%R.
Proof.
  unfold dense_second_moment. cbv zeta.
  destruct (_should_use_factored_second_moment_estimate self _).
  - destruct (get_slot slots var "vr") as [vr|]; [|discriminate]. cbn.
    destruct (get_slot slots var "vc") as [vc|]; [|discriminate]. cbn.
    intros [= _ <-] i g xi Hg Hx.
    unfold scale_rows_cols in Hx. cbn [tdata] in Hx.
    rewrite list_lookup_imap, Hg in Hx. cbn in Hx. injection Hx as <-.
    eexists. split; [|rewrite Rmult_assoc; reflexivity].
    apply Rmult_le_pos; apply R_nth_nonneg; unfold tmap; cbn [tdata];
      apply R_rsqrt_all_nonneg.
  - destruct (get_slot slots var "v") as [v|]; [|discriminate]. cbn.
    intros [= _ <-] i g xi Hg Hx.
    unfold tzip in Hx. cbn [tdata] in Hx.
    apply lookup_zip_with_Some in Hx as (g' & r & -> & Hg' & Hr).
    rewrite Hg in Hg'. injection Hg' as <-.
    exists r. split; [|reflexivity].
    pose proof (R_rsqrt_all_nonneg
                  (zip_with Rplus
                     (map (Rmult d) (tdata v))
                     (map (Rmult (Q2R 1 - d))
                          (tdata (dense_grad_squared self grad))))) as Hall.
    eapply Forall_lookup_1 in Hall; [exact Hall | exact Hr].
Qed.

Lemma R_dense_clip_direction (self : AdafactorOptimizer (P := R) (A := R))
    (x : tensor R) (i : nat) (xi : R) :
  tdata (dense_clip self x) !! i = Some xi ->
  exists x0 k, tdata x !! i = Some x0 /\ (0 <= k)%R /\ xi = (x0 * k)%R.
Proof.
  unfold dense_clip. destruct (_clipping_threshold self) as [c|].
  - unfold tmap. cbn [tdata]. rewrite list_lookup_fmap.
    destruct (tdata x !! i) as [x0|]; [|discriminate]. cbn.
    intros [= <-]. eexists x0, _. split; [reflexivity|].
    split; [|reflexivity].
    apply Rinv_nonneg. unfold lit. real_arith. rewrite Q2R_one.
    eapply Rle_trans; [|apply Rmax_l]. lra.
  - intros Hx. exists xi, 1%R. split; [exact Hx|]. split; lra.
Qed.

Lemma R_update_scale_nonneg (self : AdafactorOptimizer (P := R) (A := R))
    (t : Z) (grad old_val : tensor R) :
  (0 <= _learning_rate self t)%R -> (0 <= _epsilon1 self)%R ->
  (0 <= dense_update_scale self t grad old_val)%R.
Proof.
  intros Hlr He. unfold dense_update_scale. cbv zeta.
  pose proof (R_grad_squared_mean_nonneg self grad He) as Hm.
  assert (Hp : (0 <= _parameter_scale self old_val)%R).
  { unfold _parameter_scale. real_arith.
    eapply Rle_trans; [apply R_reduce_rms_nonneg | apply Rmax_l]. }
  unfold lit. real_arith.
  assert (0 < Q2R (1 # 1000000000000000000000000000000))%R
    by (unfold Q2R; simpl; lra).
  destruct (_multiply_by_parameter_scale self); nra.
Qed.

(** The update of a float32 variable without momentum and without
    simulated quantization, in one piece. *)
Lemma resource_apply_dense_plain {P A : Type} `{Numerics P A}
    (self : AdafactorOptimizer (P := P) (A := A)) (t : Z)
    (slots : gmap (string * string) (tensor A)) (grad : tensor A)
    (var : variable A) :
  var_dtype var = DT_FLOAT -> ftruth (_beta1 self) = false ->
  _simulated_quantize_bits self = None ->
  _resource_apply_dense self t slots grad var
  = match dense_second_moment self slots var grad
            (dense_decay_rate self t grad) with
    | Some (ups, x) =>
        Some (Assign (TVar (var_name var))
                (tzip fsub (var_value var)
                   (tmap (fmul (dense_update_scale self t grad (var_value var)))
                         (dense_clip self x))) :: ups)
    | None => None
    end.
Proof.
  intros Hdt Hb Hbits.
  unfold _resource_apply_dense, dense_subtrahend, dense_old_val.
  rewrite Hdt. cbn.
  destruct (dense_second_moment self slots var grad _) as [[ups x]|];
    [|reflexivity]. cbn.
  unfold dense_momentum. rewrite Hb. cbn.
  unfold dense_write. rewrite Hdt, Hbits. reflexivity.
Qed.

(** X11. Each coordinate moves against its gradient, in exact arithmetic.
    For a float32 variable, without momentum and without simulated
    quantization, in the setting where no divisor of the rule is zero and
    no square root is taken of a negative number (a gradient of the
    variable's shape with no empty dimension, slots of the registered
    shapes holding no negative value, [epsilon1 > 0], an effective decay
    rate in [0, 1), a positive clipping threshold if any) and with a
    nonnegative learning rate: wherever the gradient is nonnegative the
    new value is at most the old one, and wherever it is nonpositive the
    new value is at least the old one. *)
Theorem update_moves_against_gradient
    (self : AdafactorOptimizer (P := R) (A := R)) (t : Z)
    (slots : gmap (string * string) (tensor R)) (grad : tensor R)
    (var : variable R) (updates : list (assign R)) :
  var_dtype var = DT_FLOAT -> ftruth (_beta1 self) = false ->
  _simulated_quantize_bits self = None ->
  well_shaped self slots grad var ->
  Forall (fun n => 0 < n)%nat (tshape grad) ->
  (forall s acc, slots !! (s, var_name var) = Some acc ->
                 Forall (fun v => 0 <= v)%R (tdata acc)) ->
  (0 < _epsilon1 self)%R ->
  (0 <= dense_decay_rate self t grad < 1)%R ->
  (forall c, _clipping_threshold self = Some c -> (0 < c)%R) ->
  (0 <= _learning_rate self t)%R ->
  _resource_apply_dense self t slots grad var = Some updates ->
  exists new_val rest,
    updates = Assign (TVar (var_name var)) new_val :: rest /\
    forall i g old new,
      tdata grad !! i = Some g -> tdata (var_value var) !! i = Some old ->
      tdata new_val !! i = Some new ->
      ((0 <= g)%R -> (new <= old)%R) /\ ((g <= 0)%R -> (old <= new)%R).
Proof.
  intros Hdt Hb Hbits _ _ _ He0 _ _ Hlr.
  assert (He : (0 <= _epsilon1 self)%R) by lra.
  rewrite (resource_apply_dense_plain (H := R_Numerics) self t slots grad var
             Hdt Hb Hbits).
  destruct (dense_second_moment self slots var grad _) as [[ups x]|] eqn:Hsm;
    [|discriminate].
  pose proof (R_update_scale_nonneg self t grad (var_value var) Hlr He) as Hu.
  remember (dense_update_scale self t grad (var_value var)) as u eqn:Hudef.
  clear Hudef.
  intros [= <-]. eexists _, _. split; [reflexivity|].
  intros i g old new Hg Hold Hnew.
  unfold tzip, tmap in Hnew. cbn [tdata] in Hnew.
  apply lookup_zip_with_Some in Hnew as (old' & s & -> & Hold' & Hs).
  rewrite Hold in Hold'. injection Hold' as <-.
  rewrite list_lookup_fmap in Hs.
  destruct (tdata (dense_clip self x) !! i) as [xc|] eqn:Hxc; [|discriminate].
  cbn in Hs. injection Hs as <-.
  apply R_dense_clip_direction in Hxc as (x0 & k & Hx0 & Hk & ->).
  destruct (R_second_moment_direction _ _ _ _ _ _ _ Hsm i g x0 Hg Hx0)
    as (c & Hc & ->).
  assert (Hf : (0 <= u * (c * k))%R)
    by (apply Rmult_le_pos; [exact Hu | apply Rmult_le_pos; assumption]).
  replace (u * (g * c * k))%R with (g * (u * (c * k)))%R by ring.
  split; intros Hg0; nra.
Qed.

Lemma R_ftruth_zero : ftruth (0%R : R) = false.
Proof. cbn. destruct (Req_dec_T 0 0) as [_ | Hne]; [reflexivity | lra]. Qed.

Lemma R_clipping_optimizer_learning_rate :
  (0 <= _learning_rate R_clipping_optimizer 0)%R.
Proof.
  cbn [R_clipping_optimizer AdafactorOptimizer_init _learning_rate].
  rewrite R_learning_rate_default, Rmult_1_r.
  apply Rmin_glb; [|lra].
  apply Rmult_le_pos; [lra|]. apply Rinv_nonneg, sqrt_pos.
Qed.

Lemma R_clipping_optimizer_decay_rate :
  (0 <= dense_decay_rate R_clipping_optimizer 0 R_update_3_4 < 1)%R.
Proof.
  unfold dense_decay_rate. cbv zeta.
  cbn [R_clipping_optimizer AdafactorOptimizer_init _decay_rate].
  unfold _decay_rate_default. rewrite R_decay_rate_pow.
  replace (Rpower (0 + 1) _) with 1%R
    by (unfold Rpower; rewrite Rplus_0_l, ln_1, Rmult_0_r, exp_0; reflexivity).
  unfold reduce_mean, reduce_mean_list, reduce_sum_list, dense_grad_squared,
    tmap, square, R_update_3_4, lit.
  real_arith.
  cbn [tdata map fold_left length _epsilon1 R_clipping_optimizer
       AdafactorOptimizer_init].
  unfold Q2R. simpl. change (Z.of_nat 2) with 2%Z. lra.
Qed.

Lemma update_moves_against_gradient_witness :
  let self := R_clipping_optimizer in
  let var := R_vector_var in
  let slots : gmap (string * string) (tensor R) :=
    {[ ("v", "b") := Tensor [2] [0%R; 0%R] ]} in
  exists updates new_val rest,
    _resource_apply_dense self 0 slots R_update_3_4 var = Some updates /\
    updates = Assign (TVar (var_name var)) new_val :: rest /\
    forall i g old new,
      tdata R_update_3_4 !! i = Some g ->
      tdata (var_value var) !! i = Some old ->
      tdata new_val !! i = Some new ->
      ((0 <= g)%R -> (new <= old)%R) /\ ((g <= 0)%R -> (old <= new)%R).
Proof.
  intros self var slots.
  assert (Hdt : var_dtype var = DT_FLOAT) by reflexivity.
  assert (Hb : ftruth (_beta1 self) = false) by apply R_ftruth_zero.
  assert (Hbits : _simulated_quantize_bits self = None) by reflexivity.
  assert (Hshaped : well_shaped self slots R_update_3_4 var).
  { split; [reflexivity|]. split; [reflexivity|]. split; [reflexivity|].
    intros slot_name acc z Hacc Hz. unfold slots in Hacc.
    apply lookup_singleton_Some in Hacc as [[= <-] <-].
    cbn in Hz. injection Hz as <-. split; reflexivity. }
  assert (Hdims : Forall (fun n => 0 < n)%nat (tshape R_update_3_4))
    by (repeat constructor).
  assert (Hacc : forall s acc, slots !! (s, var_name var) = Some acc ->
                               Forall (fun v => 0 <= v)%R (tdata acc)).
  { intros s acc Hacc. unfold slots in Hacc.
    apply lookup_singleton_Some in Hacc as [_ <-].
    repeat constructor; lra. }
  assert (He : (0 < _epsilon1 self)%R) by (cbn; unfold Q2R; simpl; lra).
  assert (Hd : (0 <= dense_decay_rate self 0 R_update_3_4 < 1)%R)
    by apply R_clipping_optimizer_decay_rate.
  assert (Hc : forall c, _clipping_threshold self = Some c -> (0 < c)%R)
    by (intros c [= <-]; lra).
  assert (Hlr : (0 <= _learning_rate self 0)%R)
    by apply R_clipping_optimizer_learning_rate.
  assert (Hsome : is_Some (_resource_apply_dense self 0 slots R_update_3_4 var)).
  { apply (resource_apply_dense_is_Some (H := R_Numerics)). split.
    - split.
      + intros Hb'. pose proof R_ftruth_zero as Hz.
        change (ftruth (_beta1 self)) with (ftruth (0%R : R)) in Hb'.
        rewrite Hz in Hb'. discriminate Hb'.
      + cbn. eexists. apply lookup_singleton_Some. split; reflexivity.
    - discriminate. }
  destruct Hsome as [updates Hrun].
  destruct (update_moves_against_gradient self 0%Z slots R_update_3_4 var
              updates Hdt Hb Hbits Hshaped Hdims Hacc He Hd Hc Hlr Hrun)
    as (new_val & rest & Hup & Hdir).
  exists updates, new_val, rest.
  repeat split; try assumption; apply Hdir with i; assumption.
Defined.

(** ** The second-moment accumulators stay nonnegative *)

Lemma Forall_chunks_aux {X} (Q : X -> Prop) (fuel n : nat) (l : list X) :
  Forall Q l -> Forall (Forall Q) (chunks_aux fuel n l).
Proof.
  revert l. induction fuel as [|fuel IH]; intros l Hl; [constructor|].
  destruct l as [|v l]; [constructor|].
  cbn [chunks_aux]. constructor.
  - apply Forall_take, Hl.
  - apply IH, Forall_drop, Hl.
Qed.

Lemma Forall_chunks {X} (Q : X -> Prop) (n : nat) (l : list X) :
  Forall Q l -> Forall (Forall Q) (chunks n l).
Proof. apply Forall_chunks_aux. Qed.

Lemma R_reduce_mean_list_nonneg (l : list R) :
  Forall (fun v => 0 <= v)%R l -> (0 <= reduce_mean_list l)%R.
Proof.
  intros Hl. unfold reduce_mean_list, reduce_sum_list. real_arith.
  rewrite Q2R_zero, Q2R_inject_Z.
  apply Rmult_le_pos; [apply R_sum_nonneg; [lra | exact Hl]|].
  apply Rinv_nonneg, IZR_le. lia.
Qed.

Lemma R_blend_nonneg (d m : R) (a b : list R) :
  (0 <= d)%R -> (0 <= m)%R ->
  Forall (fun v => 0 <= v)%R a -> Forall (fun v => 0 <= v)%R b ->
  Forall (fun v => 0 <= v)%R
         (zip_with Rplus (map (Rmult d) a) (map (Rmult m) b)).
Proof.
  intros Hd Hm Ha Hb. apply Forall_lookup. intros i w Hw.
  apply lookup_zip_with_Some in Hw as (u & v & -> & Hu & Hv).
  rewrite list_lookup_fmap in Hu, Hv.
  destruct (a !! i) as [a0|] eqn:Ha0; [|discriminate].
  destruct (b !! i) as [b0|] eqn:Hb0; [|discriminate].
  cbn in Hu, Hv. injection Hu as <-. injection Hv as <-.
  eapply Forall_lookup_1 in Ha; [|exact Ha0].
  eapply Forall_lookup_1 in Hb; [|exact Hb0].
  cbn in Ha, Hb. nra.
Qed.

Lemma R_grad_squared_nonneg (self : AdafactorOptimizer (P := R) (A := R))
    (grad : tensor R) :
  (0 <= _epsilon1 self)%R ->
  Forall (fun v => 0 <= v)%R (tdata (dense_grad_squared self grad)).
Proof.
  intros He. unfold dense_grad_squared, tmap, square. cbn [tdata].
  apply Forall_fmap, Forall_forall. intros g _. cbn. nra.
Qed.

Lemma R_second_moment_nonneg (self : AdafactorOptimizer (P := R) (A := R))
    (slots : gmap (string * string) (tensor R)) (var : variable R)
    (grad : tensor R) (d : R) (ups : list (assign R)) (x : tensor R) :
  (0 <= _epsilon1 self)%R -> (0 <= d <= 1)%R ->
  (forall s acc, slots !! (s, var_name var) = Some acc ->
                 s ∈ ["vr"; "vc"; "v"] ->
                 Forall (fun v => 0 <= v)%R (tdata acc)) ->
  dense_second_moment self slots var grad d = Some (ups, x) ->
  Forall (fun u => Forall (fun v => 0 <= v)%R (tdata (assign_value u))) ups.
Proof.
  intros He Hd Hslots.
  pose proof (R_grad_squared_nonneg self grad He) as Hgs.
  assert (Hm : (0 <= Q2R 1 - d)%R) by (rewrite Q2R_one; lra).
  unfold dense_second_moment, get_slot. cbv zeta.
  destruct (_should_use_factored_second_moment_estimate self _).
  - destruct (slots !! ("vr", var_name var)) as [vr|] eqn:Hvr; [|discriminate].
    cbn.
    destruct (slots !! ("vc", var_name var)) as [vc|] eqn:Hvc; [|discriminate].
    cbn. intros [= <- _].
    apply Hslots in Hvr; [|repeat constructor].
    apply Hslots in Hvc; [|repeat constructor].
    repeat apply Forall_cons_2; [| |apply Forall_nil_2];
      cbn [assign_value tzip tmap tdata]; unfold lit; real_arith;
      (apply R_blend_nonneg; [lra | exact Hm | assumption |]).
    + unfold reduce_mean_last. cbn [tdata].
      apply Forall_fmap. eapply Forall_impl; [apply Forall_chunks, Hgs|].
      intros row Hrow. apply R_reduce_mean_list_nonneg, Hrow.
    + unfold reduce_mean_second_last. cbn [tdata].
      apply Forall_concat, Forall_fmap.
      eapply Forall_impl; [apply Forall_chunks, Hgs|].
      intros block Hblock. cbn.
      apply Forall_fmap, Forall_forall. intros j _. cbn.
      apply R_reduce_mean_list_nonneg, Forall_fmap.
      eapply Forall_impl; [apply Forall_chunks, Hblock|].
      intros row Hrow. cbn. apply R_nth_nonneg, Hrow.
  - destruct (slots !! ("v", var_name var)) as [v|] eqn:Hv; [|discriminate].
    cbn. intros [= <- _].
    apply Hslots in Hv; [|repeat constructor].
    apply Forall_cons_2; [|apply Forall_nil_2].
    cbn [assign_value tzip tmap tdata]. unfold lit. real_arith.
    apply R_blend_nonneg; [lra | exact Hm | assumption | exact Hgs].
Qed.

(** The assignments of an update, other than those to the variable and
    to its momentum slot, are those of the second-moment update. *)
Lemma resource_apply_dense_accumulators {P A : Type} `{Numerics P A}
    (self : AdafactorOptimizer (P := P) (A := A)) (t : Z)
    (slots : gmap (string * string) (tensor A)) (grad : tensor A)
    (var : variable A) (updates : list (assign A)) :
  _resource_apply_dense self t slots grad var = Some updates ->
  exists ups x,
    dense_second_moment self slots var grad (dense_decay_rate self t grad)
    = Some (ups, x) /\
    forall u, u ∈ updates ->
              u ∈ ups \/ assign_target u = TVar (var_name var) \/
              assign_target u = TSlot "m" (var_name var).
Proof.
  unfold _resource_apply_dense, dense_subtrahend.
  destruct (dense_old_val self var) as [old_val|]; [|discriminate]. cbn.
  destruct (dense_second_moment self slots var grad _) as [[ups x]|];
    [|discriminate]. cbn.
  unfold dense_momentum, dense_write.
  destruct (ftruth (_beta1 self));
    [destruct (get_slot slots var "m"); [|discriminate]|]; cbn;
    (destruct (match var_dtype var with
               | DT_FLOAT => _ | DT_BFLOAT16 => _ end); [|discriminate]);
    cbn;
    (destruct (match _simulated_quantize_bits self with
               | Some _ => _ | None => _ end); [|discriminate]);
    cbn; intros [= <-]; exists ups, x; (split; [reflexivity|]);
    intros u Hu; apply elem_of_cons in Hu as [-> | Hu]; auto.
  apply elem_of_app in Hu as [Hu | Hu]; [auto|].
  apply list_elem_of_singleton in Hu as ->. auto.
Qed.

(** X12. In exact arithmetic, with [epsilon1 >= 0] and an effective decay rate
    in [0, 1]: if the second-moment accumulators of a variable hold no
    negative value before an update, the accumulators it assigns hold none
    either. Accumulators start at zero, so they never turn negative. *)
Theorem accumulators_stay_nonnegative
    (self : AdafactorOptimizer (P := R) (A := R)) (t : Z)
    (slots : gmap (string * string) (tensor R)) (grad : tensor R)
    (var : variable R) (updates : list (assign R)) :
  (0 <= _epsilon1 self)%R -> (0 <= dense_decay_rate self t grad <= 1)%R ->
  (forall s acc, slots !! (s, var_name var) = Some acc ->
                 s ∈ ["vr"; "vc"; "v"] ->
                 Forall (fun v => 0 <= v)%R (tdata acc)) ->
  _resource_apply_dense self t slots grad var = Some updates ->
  forall u s,
    u ∈ updates -> assign_target u = TSlot s (var_name var) ->
    s ∈ ["vr"; "vc"; "v"] ->
    Forall (fun v => 0 <= v)%R (tdata (assign_value u)).
Proof.
  intros He Hd Hslots Hrun u s Hu Htarget Hs.
  apply (resource_apply_dense_accumulators (H := R_Numerics)) in Hrun
    as (ups & x & Hsm & Hmem).
  pose proof (R_second_moment_nonneg _ _ _ _ _ _ _ He Hd Hslots Hsm) as Hall.
  destruct (Hmem u Hu) as [Hin | [Hvar | Hmom]].
  - eapply Forall_forall in Hall; [exact Hall | exact Hin].
  - rewrite Htarget in Hvar. discriminate Hvar.
  - rewrite Htarget in Hmom. injection Hmom as ->.
    repeat (apply elem_of_cons in Hs as [Hs | Hs]; [discriminate Hs|]).
    apply elem_of_nil in Hs. destruct Hs.
Qed.

Lemma accumulators_stay_nonnegative_witness :
  let self := R_clipping_optimizer in
  let var := R_vector_var in
  let slots : gmap (string * string) (tensor R) :=
    {[ ("v", "b") := Tensor [2] [0%R; 0%R] ]} in
  exists updates,
    _resource_apply_dense self 0 slots R_update_3_4 var = Some updates /\
    forall u s,
      u ∈ updates -> assign_target u = TSlot s (var_name var) ->
      s ∈ ["vr"; "vc"; "v"] ->
      Forall (fun v => 0 <= v)%R (tdata (assign_value u)).
Proof.
  intros self var slots.
  assert (He : (0 <= _epsilon1 self)%R) by (cbn; unfold Q2R; simpl; lra).
  assert (Hd : (0 <= dense_decay_rate self 0 R_update_3_4 <= 1)%R)
    by (destruct R_clipping_optimizer_decay_rate as [Hlo Hhi];
        split; [exact Hlo | left; exact Hhi]).
  assert (Hslots : forall s acc,
             slots !! (s, var_name var) = Some acc -> s ∈ ["vr"; "vc"; "v"] ->
             Forall (fun v => 0 <= v)%R (tdata acc)).
  { intros s acc Hacc _. unfold slots in Hacc.
    apply lookup_singleton_Some in Hacc as [_ <-].
    repeat constructor; lra. }
  assert (Hsome : is_Some (_resource_apply_dense self 0 slots R_update_3_4 var)).
  { apply (resource_apply_dense_is_Some (H := R_Numerics)). split.
    - split.
      + intros Hb. pose proof R_ftruth_zero as Hz.
        change (ftruth (_beta1 self)) with (ftruth (0%R : R)) in Hb.
        rewrite Hz in Hb. discriminate Hb.
      + cbn. eexists. apply lookup_singleton_Some. split; reflexivity.
    - discriminate. }
  destruct Hsome as [updates Hrun].
  exists updates. split; [exact Hrun|].
  exact (accumulators_stay_nonnegative self 0%Z slots R_update_3_4 var updates
           He Hd Hslots Hrun).
Defined.

(** ** Registration, reads and writes on a matrix and a vector *)

Lemma resource_apply_dense_raises_witness :
  ~ has_slots quantizing_optimizer ∅ matrix_var /\
  _resource_apply_dense quantizing_optimizer 0 ∅ ones_2x2 matrix_var = None.
Proof.
  assert (Hmissing : ~ has_slots quantizing_optimizer ∅ matrix_var).
  { intros [_ Hslots]. cbn in Hslots. destruct Hslots as [[vr Hvr] _].
    rewrite lookup_empty in Hvr. discriminate Hvr. }
  split; [exact Hmissing|].
  apply (resource_apply_dense_raises (H := F32_Numerics) quantizing_optimizer
           0%Z ∅ ones_2x2 matrix_var).
  left. exact Hmissing.
Defined.

Lemma registered_update_succeeds_witness :
  let self := quantizing_optimizer in
  let var_list := [matrix_var; vector_var] in
  let slots := _create_slots self var_list ∅ in
  well_shaped self slots (var_value vector_var) vector_var /\
  is_Some (_resource_apply_dense self 0 slots (var_value vector_var)
             vector_var).
Proof.
  intros self var_list.
  assert (Hnd : NoDup (map var_name var_list)).
  { apply NoDup_cons. split; [|apply NoDup_singleton].
    intros Hin. apply list_elem_of_singleton in Hin. discriminate Hin. }
  assert (Hin : vector_var ∈ var_list)
    by apply list_elem_of_further, list_elem_of_here.
  assert (Hvar : well_formed (var_value vector_var)) by reflexivity.
  assert (Hshape : tshape (var_value vector_var)
                   = tshape (var_value vector_var)) by reflexivity.
  assert (Henc : var_dtype vector_var = DT_BFLOAT16 ->
                 is_Some (_parameter_encoding self) /\
                 simulated_quantize_bits_set self = false) by discriminate.
  assert (Hrange : forall bits, _simulated_quantize_bits self = Some bits ->
                                (0 <= bits <= 22)%Z)
    by (intros bits [= <-]; lia).
  exact (registered_update_succeeds (H := F32_Numerics) self 0%Z var_list
           (var_value vector_var) vector_var Hnd Hin Hvar Hvar Hshape Henc
           Hrange).
Defined.

Lemma resource_apply_dense_reads_own_slots_witness :
  let self := quantizing_optimizer in
  let slots := _create_slots self [matrix_var] ∅ in
  let slots' := <[("v", "b") := twos_2x2]> slots in
  (forall s, slots !! (s, var_name matrix_var)
             = slots' !! (s, var_name matrix_var)) /\
  _resource_apply_dense self 0 slots' ones_2x2 matrix_var
  = _resource_apply_dense self 0 slots ones_2x2 matrix_var.
Proof.
  intros self slots slots'.
  assert (Hagree : forall s, slots !! (s, var_name matrix_var)
                             = slots' !! (s, var_name matrix_var)).
  { intros s. symmetry. apply lookup_insert_ne. discriminate. }
  split; [exact Hagree|].
  exact (resource_apply_dense_reads_own_slots (H := F32_Numerics) self 0%Z
           slots slots' ones_2x2 matrix_var Hagree).
Defined.

Lemma update_leaves_other_variables_witness :
  let self := quantizing_optimizer in
  let slots := _create_slots self [matrix_var; vector_var] ∅ in
  exists updates,
    _resource_apply_dense self 0 slots ones_2x2 matrix_var = Some updates /\
    var_name vector_var ≠ var_name matrix_var /\
    run_var updates vector_var = vector_var /\
    forall s, run_slots updates slots !! (s, var_name vector_var)
              = slots !! (s, var_name vector_var).
Proof.
  intros self slots.
  destruct (_resource_apply_dense self 0 slots ones_2x2 matrix_var)
    as [updates|] eqn:Hrun; [|vm_compute in Hrun; discriminate Hrun].
  assert (Hother : var_name vector_var ≠ var_name matrix_var) by discriminate.
  exists updates. split; [reflexivity|]. split; [exact Hother|].
  exact (proj2 (update_leaves_other_variables (H := F32_Numerics) self 0%Z
                  slots ones_2x2 matrix_var updates vector_var Hrun Hother)).
Defined.

(** ** Unbiased rounding of values that already are bfloat16 *)

Lemma spec_float_eqb_eq (x y : spec_float) :
  spec_float_eqb x y = true -> x = y.
Proof.
  destruct x as [s | s | | s m e], y as [s' | s' | | s' m' e'];
    cbn; try discriminate; try reflexivity.
  - intros Hs. apply Bool.eqb_prop in Hs. congruence.
  - intros Hs. apply Bool.eqb_prop in Hs. congruence.
  - intros Hs. apply andb_prop in Hs as [Hs He].
    apply andb_prop in Hs as [Hs Hm].
    apply Bool.eqb_prop in Hs. apply Pos.eqb_eq in Hm. apply Z.eqb_eq in He.
    congruence.
Qed.

Lemma forallb_zrange (f : Z -> bool) (lo : Z) (n : nat) (z : Z) :
  forallb f (zrange lo n) = true -> (lo <= z < lo + Z.of_nat n)%Z ->
  f z = true.
Proof.
  intros Hall Hz. rewrite forallb_forall in Hall. apply Hall.
  unfold zrange. apply in_map_iff. exists (Z.to_nat (z - lo)).
  split; [lia|]. apply in_seq. lia.
Qed.

(** [fpart] does not exceed a noise that is not below zero when it is a
    zero of either sign. *)
Lemma fgt_zero_noise (fpart noise : f32) :
  is_zero (sf fpart) = true -> fgt (of_Q 0) noise = false ->
  fgt fpart noise = false.
Proof.
  destruct fpart as [[s | s | | s m e]]; cbn [is_zero sf]; try discriminate.
  intros _ Hnoise. exact Hnoise.
Qed.

Lemma to_bfloat16_unbiased_low (x noise : f32) :
  fgt (unbiased_fpart x) noise = false ->
  _to_bfloat16_unbiased (P := f64) x noise
  = to_bfloat16 (fmul (unbiased_cand1 x) (to_bfloat16 (fsign x))).
Proof.
  intros Hlow.
  change (_to_bfloat16_unbiased (P := f64) x noise) with
    (to_bfloat16
       (fmul (if fgt (unbiased_fpart x) noise
              then unbiased_cand2 x else unbiased_cand1 x)
             (to_bfloat16 (fsign x)))).
  rewrite Hlow. reflexivity.
Qed.

Lemma unbiased_keeps_all :
  let eps := lit (P := f64) (1 # 1000000000000000000000000000000) in
  let up := lit (P := f64) (1005 # 1000) in
  let down := lit (P := f64) (995 # 1000) in
  forallb (fun m =>
             forallb (fun e => unbiased_keeps eps up down false (Z.to_pos m) e &&
                               unbiased_keeps eps up down true (Z.to_pos m) e)
                     (zrange (-82) 203))
          (zrange 128 128) = true.
Proof. vm_cast_no_check (eq_refl true). Qed.

(** X13. A value that already is a bfloat16, [b = +-m * 2^e] with
    [128 <= m <= 255] and [-82 <= e <= 120] (from [2^-75] up to the
    largest finite bfloat16), is returned unchanged by the unbiased
    rounding, whatever the noise, as long as the noise is not below zero. *)
Theorem to_bfloat16_unbiased_keeps_bfloat16
    (s : bool) (m : positive) (e : Z) (noise : f32) :
  (128 <= m <= 255)%positive -> (-82 <= e <= 120)%Z ->
  fgt (of_Q 0) noise = false ->
  _to_bfloat16_unbiased (P := f64) (bfloat16_value s m e) noise
  = bfloat16_value s m e.
Proof.
  intros Hm He Hnoise.
  pose proof unbiased_keeps_all as Hall. cbv zeta in Hall.
  apply (forallb_zrange _ _ _ (Zpos m)) in Hall; [|lia].
  apply (forallb_zrange _ _ _ e) in Hall; [|lia].
  rewrite Pos2Z.id in Hall.
  apply andb_prop in Hall as [Hpos Hneg].
  set (b := bfloat16_value s m e).
  assert (Hkeeps :
            is_zero (sf (unbiased_fpart b)) &&
            spec_float_eqb
              (sf (to_bfloat16
                     (fmul (unbiased_cand1 b) (to_bfloat16 (fsign b)))))
              (sf b) = true)
    by (destruct s; assumption).
  apply andb_prop in Hkeeps as [Hzero Heq].
  rewrite to_bfloat16_unbiased_low
    by (apply fgt_zero_noise; assumption).
  apply spec_float_eqb_eq in Heq.
  destruct (to_bfloat16 _) as [r]. destruct b as [b].
  cbn [sf] in Heq. rewrite Heq. reflexivity.
Qed.

Lemma to_bfloat16_unbiased_keeps_bfloat16_witness :
  let noise : f32 := lit (P := f64) (1 # 4) in
  fgt (of_Q 0) noise = false /\
  _to_bfloat16_unbiased (P := f64) (bfloat16_value false 128 (-7)) noise
  = bfloat16_value false 128 (-7).
Proof.
  intros noise.
  assert (Hm : (128 <= 128 <= 255)%positive) by lia.
  assert (He : (-82 <= -7 <= 120)%Z) by lia.
  assert (Hnoise : fgt (of_Q 0) noise = false) by reflexivity.
  split; [exact Hnoise|].
  exact (to_bfloat16_unbiased_keeps_bfloat16 false 128 (-7) noise
           Hm He Hnoise).
Defined.

(** ** The factored estimate on a rank-one second moment *)

Lemma chunks_aux_concat {X} (rows : list (list X)) (fuel n : nat) :
  (0 < n)%nat -> Forall (fun row => length row = n) rows ->
  (length (concat rows) <= fuel)%nat ->
  chunks_aux fuel n (concat rows) = rows.
Proof.
  intros Hn Hrows. revert fuel.
  induction Hrows as [|row rows Hrow _ IH]; intros fuel Hfuel.
  - destruct fuel; reflexivity.
  - cbn [concat] in *. rewrite length_app in Hfuel.
    destruct fuel as [|fuel]; [lia|].
    destruct row as [|v row]; [simpl in Hrow; lia|].
    change (chunks_aux (S fuel) n ((v :: row) ++ concat rows))
      with (take n ((v :: row) ++ concat rows)
            :: chunks_aux fuel n (drop n ((v :: row) ++ concat rows))).
    rewrite take_app_length', drop_app_length' by (symmetry; exact Hrow).
    rewrite IH by lia. reflexivity.
Qed.

Lemma chunks_concat {X} (rows : list (list X)) (n : nat) :
  (0 < n)%nat -> Forall (fun row => length row = n) rows ->
  chunks n (concat rows) = rows.
Proof. intros Hn Hrows. apply chunks_aux_concat; [exact Hn | exact Hrows | lia]. Qed.

Lemma chunks_whole {X} (l : list X) :
  (0 < length l)%nat -> chunks (length l) l = [l].
Proof.
  intros Hl.
  assert (Hrows : Forall (fun row => length row = length l) [l])
    by (repeat constructor).
  pose proof (chunks_concat [l] (length l) Hl Hrows) as Hc.
  cbn [concat] in Hc. rewrite app_nil_r in Hc. exact Hc.
Qed.

Lemma lookup_concat_uniform {X} (rows : list (list X)) (n idx : nat) (g : X) :
  (0 < n)%nat -> Forall (fun row => length row = n) rows ->
  concat rows !! idx = Some g ->
  exists row, rows !! (idx / n)%nat = Some row /\
              row !! (idx mod n)%nat = Some g.
Proof.
  intros Hn Hrows. revert idx.
  induction Hrows as [|row rows Hrow _ IH]; intros idx Hg.
  - discriminate Hg.
  - cbn [concat] in Hg.
    destruct (Nat.lt_ge_cases idx n) as [Hlt | Hge].
    + rewrite lookup_app_l in Hg by lia.
      rewrite Nat.div_small, Nat.mod_small by exact Hlt.
      exists row. split; [reflexivity | exact Hg].
    + rewrite lookup_app_r in Hg by lia. rewrite Hrow in Hg.
      apply IH in Hg as (row' & Hrow' & Hg).
      assert (Heq : idx = ((idx - n) + 1 * n)%nat) by lia.
      assert (Hdiv : (idx / n = (idx - n) / n + 1)%nat)
        by (rewrite Heq at 1; apply Nat.div_add; lia).
      assert (Hmod : (idx mod n = (idx - n) mod n)%nat)
        by (rewrite Heq at 1; apply Nat.Div0.mod_add).
      rewrite Hdiv, Hmod, Nat.add_1_r.
      exists row'. split; [exact Hrow' | exact Hg].
Qed.

Section RankOne.
Local Open Scope R_scope.

Lemma R_mean_scaled (k : R) (l : list R) :
  reduce_mean_list (map (Rmult k) l) = k * reduce_mean_list l.
Proof.
  unfold reduce_mean_list, reduce_sum_list. real_arith.
  rewrite length_map, Q2R_zero.
  replace 0 with (k * 0) at 1 by ring.
  change (map (Rmult k) l) with (map (fun v => k * v) l).
  rewrite (R_sum_scaled k l 0). unfold Rdiv. ring.
Qed.

Lemma R_mean_pos (l : list R) :
  l <> [] -> Forall (fun v => 0 < v) l -> 0 < reduce_mean_list l.
Proof.
  intros Hne Hl. unfold reduce_mean_list, reduce_sum_list. real_arith.
  rewrite Q2R_zero, Q2R_inject_Z.
  destruct l as [|v l]; [congruence|].
  apply Rdiv_lt_0_compat.
  - apply Forall_cons in Hl as [Hv Hl]. cbn [fold_left].
    assert (Hacc : forall a, 0 < a -> 0 < fold_left Rplus l a).
    { clear Hne Hv. induction Hl as [|w l Hw _ IH]; intros a Ha; simpl;
        [exact Ha | apply IH; lra]. }
    apply Hacc. lra.
  - apply IZR_lt. simpl length. lia.
Qed.

Lemma R_blend_zero (d m : R) (k : nat) (l : list R) :
  length l = k ->
  zip_with Rplus (map (Rmult d) (replicate k 0)) (map (Rmult m) l)
  = map (Rmult m) l.
Proof.
  revert k. induction l as [|v l IH]; intros k Hk; subst k; simpl;
    [reflexivity|].
  rewrite IH by reflexivity. f_equal. ring.
Qed.

Lemma map_nth_seq_all {X Y} (f : X -> Y) (l : list X) (d : X) :
  map (fun j => f (nth j l d)) (seq 0 (length l)) = map f l.
Proof.
  apply list_eq. intros i.
  rewrite !list_lookup_fmap.
  destruct (l !! i) as [v|] eqn:Hv.
  - rewrite (lookup_seq_lt 0 (length l) i) by (eapply lookup_lt_Some, Hv).
    cbn. f_equal. f_equal. apply nth_lookup_Some with (d := d) in Hv.
    exact Hv.
  - apply lookup_ge_None in Hv.
    rewrite lookup_seq_ge by exact Hv. reflexivity.
Qed.

Lemma rank_one_squares (rows : list (list R)) (r c : list R) (eps : R) :
  Forall2 (fun row ri => Forall2 (fun g cj => g * g + eps = ri * cj) row c)
          rows r ->
  map (fun g => g * g + eps) (concat rows) = concat (outer_product r c).
Proof.
  intros Hrank. unfold outer_product. rewrite concat_map. f_equal.
  induction Hrank as [|row ri rows' r' Hrow _ IH]; [reflexivity|].
  cbn [map]. f_equal; [|exact IH].
  clear IH. induction Hrow as [|g cj row' c' Hg _ IH]; [reflexivity|].
  cbn [map]. f_equal; [exact Hg | exact IH].
Qed.

Lemma outer_uniform (r c : list R) :
  Forall (fun row => length row = length c) (outer_product r c).
Proof.
  unfold outer_product. apply Forall_fmap, Forall_forall. intros ri _. cbn.
  apply length_map.
Qed.

Lemma rank_one_rows_uniform (rows : list (list R)) (r c : list R) (eps : R) :
  Forall2 (fun row ri => Forall2 (fun g cj => g * g + eps = ri * cj) row c)
          rows r ->
  Forall (fun row => length row = length c) rows.
Proof.
  intros Hrank.
  induction Hrank as [|row ri rows' r' Hrow _ IH]; constructor; [|exact IH].
  eapply Forall2_length, Hrow.
Qed.

Lemma outer_length (r c : list R) :
  length (concat (outer_product r c)) = (length r * length c)%nat.
Proof.
  unfold outer_product. induction r as [|ri r' IH]; [reflexivity|].
  cbn [map concat length]. rewrite length_app, length_map, IH. lia.
Qed.

Lemma rank_one_row_means (r c : list R) :
  c <> [] ->
  map reduce_mean_list (chunks (length c) (concat (outer_product r c)))
  = map (fun ri => ri * reduce_mean_list c) r.
Proof.
  intros Hc.
  rewrite chunks_concat; [| destruct c; [congruence | simpl; lia]
                          | apply outer_uniform].
  unfold outer_product. rewrite map_map. apply map_ext. intros ri.
  apply R_mean_scaled.
Qed.

Lemma rank_one_col_means (r c : list R) :
  c <> [] ->
  map (fun j => reduce_mean_list
                  (map (fun row => nth j row 0)
                       (chunks (length c) (concat (outer_product r c)))))
      (seq 0 (length c))
  = map (fun cj => cj * reduce_mean_list r) c.
Proof.
  intros Hc.
  rewrite chunks_concat; [| destruct c; [congruence | simpl; lia]
                          | apply outer_uniform].
  rewrite <- (map_nth_seq_all (fun cj => cj * reduce_mean_list r) c 0).
  apply map_ext_in. intros j Hj. apply in_seq in Hj.
  unfold outer_product. rewrite map_map.
  rewrite <- R_mean_scaled. f_equal. apply map_ext. intros ri.
  rewrite (nth_indep _ 0 (ri * 0)) by (rewrite length_map; lia).
  rewrite (map_nth (Rmult ri)). ring.
Qed.

Lemma chunks_one {X} (n : nat) (l : list X) :
  length l = n -> (0 < n)%nat -> chunks n l = [l].
Proof. intros <- Hn. apply chunks_whole, Hn. Qed.

Lemma R_rsqrt_product (a b : R) :
  0 < a -> 0 < b -> rsqrt a * rsqrt b = / sqrt (a * b).
Proof.
  intros Ha Hb. unfold rsqrt. real_arith. rewrite Q2R_one.
  rewrite sqrt_mult by lra.
  assert (0 < sqrt a) by (apply sqrt_lt_R0, Ha).
  assert (0 < sqrt b) by (apply sqrt_lt_R0, Hb).
  field. lra.
Qed.

Lemma R_factored_rank_one
    (self : AdafactorOptimizer (P := R) (A := R))
    (slots : gmap (string * string) (tensor R)) (var : variable R)
    (grad : tensor R) (rows : list (list R)) (r c : list R) (d : R) :
  _factored self = true ->
  tshape (var_value var) = [length r; length c] ->
  tshape grad = [length r; length c] ->
  tdata grad = concat rows ->
  Forall2 (fun row ri =>
             Forall2 (fun g cj => g * g + _epsilon1 self = ri * cj) row c)
          rows r ->
  Forall (fun ri => 0 < ri) r -> Forall (fun cj => 0 < cj) c ->
  r <> [] -> c <> [] ->
  get_slot slots var "vr" = Some (zeros [length r]) ->
  get_slot slots var "vc" = Some (zeros [length c]) ->
  d < 1 ->
  exists ups x,
    dense_second_moment self slots var grad d = Some (ups, x) /\
    tdata x
    = map (fun g => g / sqrt ((1 - d) * (g * g + _epsilon1 self)))
          (tdata grad).
Proof.
  intros Hfactored Hshape Hgshape Hdata Hrank Hr Hc Hrne Hcne Hvr Hvc Hd.
  assert (Hm : (0 < length r)%nat) by (destruct r; [congruence | simpl; lia]).
  assert (Hn : (0 < length c)%nat) by (destruct c; [congruence | simpl; lia]).
  pose proof (R_mean_pos r Hrne Hr) as Hmr.
  pose proof (R_mean_pos c Hcne Hc) as Hmc.
  unfold dense_second_moment. cbv zeta.
  unfold _should_use_factored_second_moment_estimate.
  rewrite Hfactored, Hshape, Hvr, Hvc.
  cbn [length Nat.leb andb mbind option_bind].
  eexists _, _. split; [reflexivity|].
  unfold scale_rows_cols, div_by_row_mean, reduce_mean_last,
    reduce_mean_second_last, dense_grad_squared, tzip, tmap, zeros.
  cbn [tshape tdata]. rewrite Hgshape.
  change (dim_last [length r; length c]) with (length c).
  change (dim_second_last [length r; length c]) with (length r).
  change (dim_last [length r]) with (length r).
  change (num_elements [length r]) with (length r * 1)%nat.
  change (num_elements [length c]) with (length c * 1)%nat.
  rewrite !Nat.mul_1_r.
  change (map (fun g : R => fadd (square g) (to_float (_epsilon1 self)))
              (tdata grad))
    with (map (fun g => g * g + _epsilon1 self) (tdata grad)).
  rewrite Hdata, (rank_one_squares rows r c _ Hrank).
  unfold lit. real_arith. rewrite ?Q2R_zero, ?Q2R_one.
  rewrite (rank_one_row_means r c Hcne).
  rewrite (chunks_one (length r * length c) (concat (outer_product r c)))
    by (first [apply outer_length | nia]).
  cbn [map concat]. rewrite app_nil_r, (rank_one_col_means r c Hcne).
  rewrite !R_blend_zero by (rewrite ?length_map; reflexivity).
  rewrite (chunks_one (length r)) by (rewrite ?length_map; first [reflexivity | exact Hm]).
  cbn [map concat]. rewrite app_nil_r.
  rewrite R_mean_scaled.
  replace (map (fun ri => ri * reduce_mean_list c) r)
    with (map (Rmult (reduce_mean_list c)) r)
    by (apply map_ext; intros; apply Rmult_comm).
  rewrite R_mean_scaled.
  set (mr := reduce_mean_list r) in *. set (mc := reduce_mean_list c) in *.
  clearbody mr mc.
  apply list_eq. intros idx.
  rewrite list_lookup_imap, list_lookup_fmap.
  destruct (concat rows !! idx) as [g|] eqn:Hg; [|reflexivity].
  cbn [fmap option_fmap option_map]. f_equal.
  apply (lookup_concat_uniform rows (length c)) in Hg
    as (row & Hrow & Hg);
    [| exact Hn | eapply rank_one_rows_uniform, Hrank].
  destruct (Forall2_lookup_l _ _ _ _ _ Hrank Hrow) as (ri & Hri & Hrowc).
  destruct (Forall2_lookup_l _ _ _ _ _ Hrowc Hg) as (cj & Hcj & Hprod).
  assert (Hri0 : 0 < ri) by (eapply Forall_lookup_1 in Hr; [exact Hr | exact Hri]).
  assert (Hcj0 : 0 < cj) by (eapply Forall_lookup_1 in Hc; [exact Hc | exact Hcj]).
  assert (Hi : (idx / length c < length r)%nat)
    by (eapply lookup_lt_Some, Hri).
  assert (Hidx : (idx < length r * length c)%nat).
  { pose proof (Nat.div_mod_eq idx (length c)) as Hdm.
    pose proof (Nat.mod_upper_bound idx (length c)) as Hub. nia. }
  rewrite (Nat.div_small idx (length r * length c)) by exact Hidx.
  cbn [Nat.mul Nat.add].
  erewrite (nth_lookup_Some _ _ 0);
    [| rewrite !list_lookup_fmap, Hri; reflexivity].
  erewrite (nth_lookup_Some _ _ 0);
    [| rewrite !list_lookup_fmap, Hcj; reflexivity].
  rewrite Hprod, Rmult_assoc, R_rsqrt_product.
  - unfold Rdiv. f_equal. f_equal. f_equal. field.
    repeat split; apply Rgt_not_eq; lra.
  - apply Rdiv_lt_0_compat; repeat apply Rmult_lt_0_compat; lra.
  - repeat apply Rmult_lt_0_compat; lra.
Qed.

Lemma R_unfactored_first_step (self : AdafactorOptimizer (P := R) (A := R))
    (slots : gmap (string * string) (tensor R)) (var : variable R)
    (grad : tensor R) (shape : list nat) (d : R) :
  _factored self = false ->
  length (tdata grad) = num_elements shape ->
  get_slot slots var "v" = Some (zeros shape) ->
  exists ups x,
    dense_second_moment self slots var grad d = Some (ups, x) /\
    tdata x
    = map (fun g => g / sqrt ((1 - d) * (g * g + _epsilon1 self)))
          (tdata grad).
Proof.
  intros Hfactored Hlen Hv.
  unfold dense_second_moment. cbv zeta.
  unfold _should_use_factored_second_moment_estimate.
  rewrite Hfactored, Hv. cbn [andb mbind option_bind].
  eexists _, _. split; [reflexivity|].
  unfold dense_grad_squared, tzip, tmap, zeros, rsqrt, square, lit.
  cbn [tshape tdata]. real_arith. rewrite Q2R_zero, Q2R_one.
  rewrite R_blend_zero by (rewrite length_map; exact Hlen).
  rewrite !map_map.
  rewrite zip_with_fmap_r, zip_with_diag.
  apply map_ext. intros g. unfold Rdiv. rewrite Rmult_1_l. reflexivity.
Qed.

(** X14. On a matrix gradient whose squared entries (plus [epsilon1]) form a
    rank-one matrix [r_i * c_j] with positive factors, the first update
    (zero accumulators, any decay rate below 1) normalizes every entry
    [g] to [g / sqrt ((1 - d) * (g^2 + epsilon1))] in the factored form,
    exactly as the unfactored estimator does: the row and column means
    lose nothing. *)
Theorem factored_estimate_exact_on_rank_one
    (self self' : AdafactorOptimizer (P := R) (A := R))
    (slots : gmap (string * string) (tensor R)) (var : variable R)
    (grad : tensor R) (rows : list (list R)) (r c : list R) (d : R) :
  _factored self = true -> _factored self' = false ->
  _epsilon1 self' = _epsilon1 self ->
  tshape (var_value var) = [length r; length c] ->
  tshape grad = [length r; length c] ->
  tdata grad = concat rows ->
  Forall2 (fun row ri =>
             Forall2 (fun g cj => g * g + _epsilon1 self = ri * cj) row c)
          rows r ->
  Forall (fun ri => 0 < ri) r -> Forall (fun cj => 0 < cj) c ->
  r <> [] -> c <> [] ->
  get_slot slots var "vr" = Some (zeros [length r]) ->
  get_slot slots var "vc" = Some (zeros [length c]) ->
  get_slot slots var "v" = Some (zeros [length r; length c]) ->
  d < 1 ->
  exists ups x ups' x',
    dense_second_moment self slots var grad d = Some (ups, x) /\
    dense_second_moment self' slots var grad d = Some (ups', x') /\
    tdata x = tdata x' /\
    tdata x
    = map (fun g => g / sqrt ((1 - d) * (g * g + _epsilon1 self)))
          (tdata grad).
Proof.
  intros Hfactored Hfactored' Heps Hshape Hgshape Hdata Hrank Hr Hc Hrne Hcne
    Hvr Hvc Hv Hd.
  destruct (R_factored_rank_one self slots var grad rows r c d)
    as (ups & x & Hrun & Hx); try assumption.
  destruct (R_unfactored_first_step self' slots var grad
              [length r; length c] d)
    as (ups' & x' & Hrun' & Hx'); try assumption.
  { rewrite Hdata.
    rewrite <- (length_map (fun g => g * g + _epsilon1 self)).
    rewrite (rank_one_squares rows r c _ Hrank), outer_length.
    cbn [num_elements foldr]. lia. }
  exists ups, x, ups', x'. rewrite Hx', Heps.
  repeat split; assumption.
Qed.

End RankOne.

Lemma factored_estimate_exact_on_rank_one_witness :
  let self := R_plain_optimizer true in
  let self' := R_plain_optimizer false in
  exists ups x ups' x',
    dense_second_moment self R_matrix_slots R_matrix_var R_rank_one_grad
      (1 / 2)%R = Some (ups, x) /\
    dense_second_moment self' R_matrix_slots R_matrix_var R_rank_one_grad
      (1 / 2)%R = Some (ups', x') /\
    tdata x = tdata x'.
Proof.
  intros self self'.
  set (rows := [[1%R; 2%R]; [2%R; 4%R]]).
  set (r := [1%R; 4%R]). set (c := [1%R; 4%R]).
  assert (Hfactored : _factored self = true) by reflexivity.
  assert (Hfactored' : _factored self' = false) by reflexivity.
  assert (Heps : _epsilon1 self' = _epsilon1 self) by reflexivity.
  assert (Hshape : tshape (var_value R_matrix_var) = [length r; length c])
    by reflexivity.
  assert (Hgshape : tshape R_rank_one_grad = [length r; length c])
    by reflexivity.
  assert (Hdata : tdata R_rank_one_grad = concat rows) by reflexivity.
  assert (Hrank :
            Forall2 (fun row ri =>
                       Forall2 (fun g cj =>
                                  (g * g + _epsilon1 self = ri * cj)%R) row c)
                    rows r)
    by (repeat constructor; cbn; lra).
  assert (Hr : Forall (fun ri => 0 < ri)%R r) by (repeat constructor; lra).
  assert (Hc : Forall (fun cj => 0 < cj)%R c) by (repeat constructor; lra).
  assert (Hrne : r <> []) by discriminate.
  assert (Hcne : c <> []) by discriminate.
  assert (Hvr : get_slot R_matrix_slots R_matrix_var "vr"
                = Some (zeros [length r])) by reflexivity.
  assert (Hvc : get_slot R_matrix_slots R_matrix_var "vc"
                = Some (zeros [length c])) by reflexivity.
  assert (Hv : get_slot R_matrix_slots R_matrix_var "v"
               = Some (zeros [length r; length c])) by reflexivity.
  assert (Hd : (1 / 2 < 1)%R) by lra.
  destruct (factored_estimate_exact_on_rank_one self self' R_matrix_slots
              R_matrix_var R_rank_one_grad rows r c (1 / 2)%R
              Hfactored Hfactored' Heps Hshape Hgshape Hdata Hrank Hr Hc
              Hrne Hcne Hvr Hvc Hv Hd)
    as (ups & x & ups' & x' & Hrun & Hrun' & Hsame & _).
  exists ups, x, ups', x'. repeat split; assumption.
Defined.
